(** * The not-owned-file check of the CODEOWNERS validator

    A shallow embedding of [internal/check/not_owned_file.go] and of the exit
    decision of [cmd/codeowners/codeowners.go].

    The check drives external tools (git, xargs) and the file system.  They
    are modelled by a [World]: the repository (committed tree, index, working
    tree), git's global list of safe directories and the history of the
    operations started so far.  Whether an operation fails is decided by an
    oracle [fails], a parameter of the development, so every statement below
    holds for every failure behaviour of the environment.  When an operation
    does not fail, its effect is the one given in the manual page of the
    tool; the bits of the index that hide a file from git status
    (assume-unchanged, skip-worktree), the matching of ignore rules and of
    pathspecs, and the options git rm reads among its arguments are
    parameters as well. *)

From Stdlib Require Import String Ascii List DecimalString.
From stdpp Require Import base option gmap strings list fin_maps sorting.

Open Scope string_scope.
Open Scope list_scope.
Set Warnings "-register-all,-clear-no-such-hyp".

(** ** Go values *)

(** The new-line byte and the NUL byte. *)
Definition nl : string := String "010"%char "".
Definition nul : ascii := "000"%char.

(** A Go [error] value.  [withMessage] is what [errors.Wrap(err, msg)] of
    github.com/pkg/errors builds; [multiError] is [*multierror.Error] of
    github.com/hashicorp/go-multierror with its [Errors] field.  A nil error
    is [None : option error]. *)
Inductive error : Type :=
| errorString (s : string)
| withMessage (cause : error) (msg : string)
| multiError (Errors : list error).

Module multierror.

(** One argument of [Append], as its loop adds it to [Errors]: nil is
    skipped, a [*multierror.Error] is flattened. *)
Definition flatten (e : option error) : list error :=
  match e with
  | None => []
  | Some (multiError es) => es
  | Some e' => [e']
  end.

(** [multierror.Append(err, errs...)]: the [Errors] of the result. *)
Definition Append (err : option error) (errs : list (option error)) : list error :=
  match err with
  | Some (multiError es) => es ++ concat (map flatten errs)
  | Some e => concat (map flatten (Some e :: errs))
  | None => concat (map flatten errs)
  end.

(** [ErrorOrNil] of the multi-error. *)
Definition ErrorOrNil (es : list error) : option error :=
  match es with
  | [] => None
  | _ :: _ => Some (multiError es)
  end.

End multierror.

(** ** Data model *)

(** Modelled from the spec: [codeowners.Entry] of pkg/codeowners, which is
    not part of the sources at hand; section 3 gives it a pattern and an
    ordered sequence of owners. *)
Record Entry : Type := { Pattern : string; Owners : list string }.

(** Modelled from the spec: [api.Input], [api.Issue], [api.Output] and
    [api.OutputBuilder] of internal/api, which is not part of the sources at
    hand; section 3 gives an issue a message and an output an ordered
    sequence of issues. *)
Record Input : Type := { RepoDir : string; CodeownersEntries : list Entry }.
Record Issue : Type := { Message : string }.
Record Output : Type := { Issues : list Issue }.

(** Modelled from the spec: the builder of internal/api collects the issues
    in the order they are reported. *)
Module api.
Definition OutputBuilder : Type := list Issue.
Definition newOutputBuilder : OutputBuilder := [].
Definition ReportIssue (bldr : OutputBuilder) (msg : string) : OutputBuilder :=
  bldr ++ [{| Message := msg |}].
Definition Output_of (bldr : OutputBuilder) : Output := {| Issues := bldr |}.
(** [api.Output{}] *)
Definition emptyOutput : Output := {| Issues := [] |}.
End api.

Record NotOwnedFileConfig : Type := {
  TrustWorkspace : bool;
  SkipPatterns : list string;
  Subdirectories : list string
}.

(** [skipPatterns] is a Go [map[string]struct{}], that is, a set. *)
Record NotOwnedFile : Type := {
  skipPatterns : gset string;
  subDirectories : list string;
  trustWorkspace : bool
}.

Definition NewNotOwnedFile (cfg : NotOwnedFileConfig) : NotOwnedFile :=
  let skip := fold_left (fun (skip : gset string) p => {[ p ]} ∪ skip) (SkipPatterns cfg) ∅ in
  {| skipPatterns := skip;
     subDirectories := Subdirectories cfg;
     trustWorkspace := TrustWorkspace cfg |}.

(** ** Pattern exclusion *)

(** The loop of [patternsToBeIgnored]: [patterns] is the slice built so far. *)
Definition patternsToBeIgnored_loop (c : NotOwnedFile)
    (patterns : list string) (entries : list Entry) : list string :=
  fold_left
    (fun patterns entry =>
       if decide (Pattern entry ∈ skipPatterns c) then patterns
       else patterns ++ [Pattern entry])
    entries patterns.

Definition patternsToBeIgnored (c : NotOwnedFile) (entries : list Entry) : list string :=
  patternsToBeIgnored_loop c [] entries.

(** What section 4.1 of the specification asks for: the patterns in entry
    order with the members of the skip set removed. *)
Definition ComputeExcludedPatterns (entries : list Entry) (skipSet : gset string) : list string :=
  List.filter (fun p => bool_decide (p ∉ skipSet)) (map Pattern entries).

(** ** Strings of the Go standard library *)

Definition concat_strings (l : list string) : string :=
  fold_right String.append "" l.

(** [strings.Join] *)
Fixpoint Join (elems : list string) (sep : string) : string :=
  match elems with
  | [] => ""
  | [e] => e
  | e :: rest => e +:+ sep +:+ Join rest sep
  end.

(** White space as [strings.TrimSpace] sees it in ASCII text. *)
Definition isSpace (a : ascii) : bool :=
  match nat_of_ascii a with
  | 9 | 10 | 11 | 12 | 13 | 32 => true
  | _ => false
  end.

Fixpoint TrimLeftSpace (s : string) : string :=
  match s with
  | "" => ""
  | String a s' => if isSpace a then TrimLeftSpace s' else s
  end.

Fixpoint TrimRightSpace (s : string) : string :=
  match s with
  | "" => ""
  | String a s' =>
      match TrimRightSpace s' with
      | "" => if isSpace a then "" else String a ""
      | t => String a t
      end
  end.

(** [strings.TrimSpace] *)
Definition TrimSpace (s : string) : string := TrimRightSpace (TrimLeftSpace s).

(** [strings.Split(s, sep)] for a separator of one byte; [cur] is the piece
    being read. *)
Fixpoint Split_from (cur : string) (s : string) (sep : ascii) : list string :=
  match s with
  | "" => [cur]
  | String a s' =>
      if Ascii.eqb a sep then cur :: Split_from "" s' sep
      else Split_from (cur +:+ String a "") s' sep
  end.

Definition Split (s : string) (sep : ascii) : list string := Split_from "" s sep.

(** [fmt.Sprintf("%d", n)] *)
Definition Sprintf_d (n : nat) : string := NilZero.string_of_uint (Nat.to_uint n).

(** ** The world the check runs in *)

(** A tree of files: path, relative to the repository directory, to
    content. *)
Record Repo : Type := {
  head : gmap string string;      (* the tree of the commit HEAD points to *)
  index : gmap string string;     (* the staged tree: the tracked paths *)
  worktree : gmap string string   (* the files on disk *)
}.

(** The operations the check asks of its environment, with their
    arguments: the five command lines and the two file-system calls. *)
Inductive Op : Type :=
| GitConfigAddSafeDirectory (repo : string)   (* git config --global --add safe.directory repo *)
| GitStatusPorcelain (dir : string)           (* git status --porcelain *)
| OpenFileAppendCreate (name : string)        (* os.OpenFile(name, O_APPEND|O_CREATE|O_WRONLY, 0o644) *)
| FileWriteString (name : string) (s : string)
| GitLsFilesIgnoredRmCached (dir : string)    (* git ls-files -ci --exclude-standard -z | xargs -0 -r git rm --cached *)
| GitLsFiles (dir : string) (args : list string)  (* git ls-files args... *)
| GitResetHard (dir : string).                (* git reset --hard *)

Record World : Type := {
  repo : Repo;                    (* the repository at the directory under check *)
  safe_directory : list string;   (* safe.directory of git's global configuration *)
  history : list Op               (* the operations started so far, oldest first *)
}.

(** A failed operation: its diagnostic output and its error. *)
Record Failure : Type := { stderr : string; cause : error }.

(** What git rm does with a command line: whether it only shows what it
    would do (-n, --dry-run), whether it leaves the files on disk (--cached),
    whether it also updates entries with the skip-worktree bit (--sparse),
    and the pathspecs it works on. *)
Record RmCommand : Type := {
  dry_run : bool;
  cached : bool;
  sparse : bool;
  pathspecs : list string
}.

(** What the code takes from outside and this development leaves open. *)
Class Env : Type := {
  (** Whether a path is ignored, given the content of the ignore-rules file
      at the root of the working tree, if there is one.  The rules that
      --exclude-standard adds from other places do not change during a check
      and are part of this function. *)
  ignored_by : option string -> string -> bool;
  (** Whether the index entry of a path carries the assume-unchanged bit,
      or the skip-worktree bit, when the check starts.  git status does not
      look at the file of such an entry. *)
  assume_unchanged : string -> bool;
  skip_worktree : string -> bool;
  (** Whether the pathspecs given to a git command select a path (a
      pathspec is a glob pattern and can carry magic such as exclusion). *)
  pathspecs_select : list string -> string -> bool;
  (** How git ls-files prints a path on a line of its output: as it is, or
      quoted when it holds unusual bytes (core.quotePath). *)
  printed_path : string -> string;
  (** How git rm --cached reads items of which at least one looks like an
      option. *)
  git_rm_options : list string -> RmCommand;
  (** The order in which Go walks the keys of a map: not specified by the
      language, some order of the keys. *)
  range_order : gset string -> list string;
  range_order_keys : ∀ keys, range_order keys ≡ₚ elements keys;
  (** [strconv.Quote], the verb %q of [fmt.Sprintf]. *)
  Quote : string -> string;
  (** Whether an operation started in a world fails there. *)
  fails : World -> Op -> option Failure
}.

(** [context.Context]: what [ctx.Err()] returns, as a function of the number
    of operations started so far (the token can be cancelled from outside
    while the check runs). *)
Definition Ctx : Type := nat -> option error.

(** Computations in the world. *)
Definition M (A : Type) : Type := World -> A * World.

Definition ret {A : Type} (a : A) : M A := fun w => (a, w).

Definition bind {A B : Type} (m : M A) (k : A -> M B) : M B :=
  fun w => let (a, w') := m w in k a w'.

Notation "x <- m ;; k" := (bind m (fun x => k))
  (at level 100, m at next level, right associativity).

Definition gitignore : string := ".gitignore".

(** ** The tools, when they do not fail *)

Section Tools.
Context {E : Env}.

(** Whether the ignore rules in force in [r] match [p]. *)
Definition ignored (r : Repo) (p : string) : bool :=
  ignored_by (worktree r !! gitignore) p.

(** Paths in the order git lists them: sorted byte by byte. *)
Definition sorted_paths (paths : gset string) : list string :=
  merge_sort String.le (elements paths).

(** Every path the repository knows. *)
Definition all_paths (r : Repo) : list string :=
  sorted_paths (dom (head r) ∪ dom (index r) ∪ dom (worktree r)).

(** The tracked paths. *)
Definition tracked_paths (r : Repo) : list string :=
  sorted_paths (dom (index r)).

(** Whether git status leaves the file of a tracked path unread. *)
Definition hidden (p : string) : bool := assume_unchanged p || skip_worktree p.

(** The lines of git status --porcelain about one path: XY PATH, with X
    the state of the index against HEAD and Y the state of the working
    tree against the index, not looked at for an entry with the
    assume-unchanged or the skip-worktree bit; ?? for an untracked path that
    is not ignored. *)
Definition status_lines (r : Repo) (p : string) : string :=
  match index r !! p with
  | Some staged =>
      let X := match head r !! p with
               | None => "A"
               | Some committed => if decide (committed = staged) then " " else "M"
               end in
      let Y := if hidden p then " " else
               match worktree r !! p with
               | None => "D"
               | Some file => if decide (file = staged) then " " else "M"
               end in
      if decide (X = " " ∧ Y = " ") then ""
      else X +:+ Y +:+ " " +:+ p +:+ nl
  | None =>
      (match head r !! p with
       | Some _ => "D  " +:+ p +:+ nl
       | None => ""
       end) +:+
      (match worktree r !! p with
       | Some _ => if ignored r p then "" else "?? " +:+ p +:+ nl
       | None => ""
       end)
  end.

(** The output of git status --porcelain. *)
Definition git_status_porcelain (r : Repo) : string :=
  concat_strings (map (status_lines r) (all_paths r)).

(** The output of git ls-files -ci --exclude-standard -z: the tracked
    (cached) paths that the ignore rules match, each followed by NUL. *)
Definition git_ls_files_ci_z (r : Repo) : string :=
  concat_strings
    (map (fun p => p +:+ String nul "") (List.filter (ignored r) (tracked_paths r))).

(** An item that git reads as an option: it starts with a dash and is not
    the dash alone. *)
Definition option_like (a : string) : bool :=
  String.prefix "-" a && negb (String.eqb a "-").

(** What git rm --cached items... makes of its items.  The source puts no
    -- before them: when none looks like an option they are all pathspecs;
    otherwise git reads options among them. *)
Definition git_rm_reads (items : list string) : RmCommand :=
  if existsb option_like items then git_rm_options items
  else {| dry_run := false; cached := true; sparse := false; pathspecs := items |}.

(** Whether a command of git rm removes the entry of a path: the path is
    tracked, the pathspecs select it and, short of --sparse, its entry does
    not carry the skip-worktree bit. *)
Definition removed_by (cmd : RmCommand) (r : Repo) (p : string) : bool :=
  bool_decide (is_Some (index r !! p))
  && pathspecs_select (pathspecs cmd) p
  && (sparse cmd || negb (skip_worktree p)).

(** git rm --cached items...: unless it is a dry run, the entries the
    command removes leave the index, and their files leave the disk when
    the command does not keep them. *)
Definition git_rm_cached (items : list string) (r : Repo) : Repo :=
  let cmd := git_rm_reads items in
  if dry_run cmd then r
  else
    {| head := head r;
       index := filter (fun kv => removed_by cmd r kv.1 = false) (index r);
       worktree := if cached cmd then worktree r
                   else filter (fun kv => removed_by cmd r kv.1 = false) (worktree r) |}.

(** Whether git reset --hard leaves the file of a path as it is: its
    entry, still in the index, carries the skip-worktree bit. *)
Definition left_by_reset (r : Repo) (p : string) : Prop :=
  skip_worktree p = true ∧ is_Some (index r !! p).

(** git reset --hard: the index becomes the tree of HEAD; every file of
    that tree is written to disk, but for the entries with the
    skip-worktree bit; a file that was tracked and is not in that tree is
    deleted; an untracked file is left alone. *)
Definition git_reset_hard (r : Repo) : Repo :=
  {| head := head r;
     index := head r;
     worktree :=
       filter (fun kv => ¬ left_by_reset r kv.1) (head r)
       ∪ filter (fun kv => index r !! kv.1 = None ∨ left_by_reset r kv.1) (worktree r) |}.

(** The output of git ls-files args...: the tracked paths, restricted to
    the pathspecs when there are some, one per line. *)
Definition git_ls_files (args : list string) (r : Repo) : string :=
  concat_strings
    (map (fun p => printed_path p +:+ nl)
       (List.filter
          (fun p => match args with
                    | [] => true
                    | _ :: _ => pathspecs_select args p
                    end)
          (tracked_paths r))).

End Tools.

(** The items xargs -0 reads from its input: terminated by NUL, with a last
    unterminated item when the input does not end in NUL. *)
Fixpoint xargs_items_from (cur : string) (input : string) : list string :=
  match input with
  | "" => match cur with "" => [] | _ => [cur] end
  | String a rest =>
      if Ascii.eqb a nul then cur :: xargs_items_from "" rest
      else xargs_items_from (cur +:+ String a "") rest
  end.

(** xargs -0 -r command: run the command on the items, unless there is
    none (the items fit on one command line). *)
Definition xargs_0_r (command : list string -> Repo -> Repo) (input : string) (r : Repo) : Repo :=
  match xargs_items_from "" input with
  | [] => r
  | items => command items r
  end.

(** ** The operations, as the check calls them *)

Section Check.
Context {E : Env}.

Definition started (op : Op) (w : World) : World :=
  {| repo := repo w; safe_directory := safe_directory w; history := history w ++ [op] |}.

Definition with_repo (r : Repo) (w : World) : World :=
  {| repo := r; safe_directory := safe_directory w; history := history w |}.

(** [pipe.DividedOutput(script)]: standard output, standard error and the
    error of the script.  [run] is what the script does when it does not
    fail; a script that fails leaves the world as it is. *)
Definition DividedOutput (op : Op) (run : World -> string * World)
    : M (string * string * option error) :=
  fun w =>
    match fails w op with
    | Some f => (("", stderr f, Some (cause f)), started op w)
    | None => let (out, w') := run (started op w) in ((out, "", None), w')
    end.

(** [os.OpenFile(path.Join(dir, name), O_APPEND|O_CREATE|O_WRONLY, 0o644)]:
    the file is created empty when it does not exist.  The result is the
    open file (its name in the working tree) or the error.  The deferred
    [f.Close()], whose error the code drops, is not an operation of its
    own. *)
Definition OpenFile (dir name : string) : M (string + error) :=
  fun w =>
    let op := OpenFileAppendCreate (dir +:+ "/" +:+ name) in
    match fails w op with
    | Some f => (inr (cause f), started op w)
    | None =>
        let r := repo w in
        let files := match worktree r !! name with
                     | Some _ => worktree r
                     | None => <[name := ""]> (worktree r)
                     end in
        (inl name,
         with_repo {| head := head r; index := index r; worktree := files |} (started op w))
    end.

(** [f.WriteString(s)] on a file opened with O_APPEND. *)
Definition WriteString (dir f : string) (s : string) : M (option error) :=
  fun w =>
    let op := FileWriteString (dir +:+ "/" +:+ f) s in
    match fails w op with
    | Some fl => (Some (cause fl), started op w)
    | None =>
        let r := repo w in
        let old := default "" (worktree r !! f) in
        (None,
         with_repo {| head := head r; index := index r;
                      worktree := <[f := old +:+ s]> (worktree r) |} (started op w))
    end.

(** Modelled from the spec: [ctxutil.ShouldExit] of internal/ctxutil, which
    is not part of the sources at hand; by section 5 a check observes the
    token and returns its error when it is cancelled, so [ShouldExit] is
    true when the token, read at the present moment, carries an error. *)
Definition ShouldExit (ctx : Ctx) : M bool :=
  fun w => (bool_decide (is_Some (ctx (length (history w)))), w).

(** [ctx.Err()] at the present moment. *)
Definition ctx_Err (ctx : Ctx) : M (option error) :=
  fun w => (ctx (length (history w)), w).

(** ** internal/check/not_owned_file.go *)

Definition AppendToGitignoreFile (c : NotOwnedFile) (repoDir : string)
    (patterns : list string) : M (option error) :=
  r <- OpenFile repoDir gitignore;;
  match r with
  | inr err => ret (Some err)
  | inl f =>
      (* ensure we are starting from new line *)
      let content := nl in
      let content := fold_left (fun content p => content +:+ (p +:+ nl)) patterns content in
      err <- WriteString repoDir f content;;
      match err with
      | Some e => ret (Some e)
      | None => ret None
      end
  end.

Definition GitRemoveIgnoredFiles (c : NotOwnedFile) (repoDir : string) : M (option error) :=
  r <- DividedOutput (GitLsFilesIgnoredRmCached repoDir)
         (fun w =>
            let listed := git_ls_files_ci_z (repo w) in
            ("", with_repo (xargs_0_r git_rm_cached listed (repo w)) w));;
  let '(_, stderr, err) := r in
  match err with
  | Some e => ret (Some (withMessage e stderr))
  | None => ret None
  end.

Definition GitCheckStatus (c : NotOwnedFile) (repoDir : string) : M (string * option error) :=
  r <- DividedOutput (GitStatusPorcelain repoDir)
         (fun w => (git_status_porcelain (repo w), w));;
  let '(out, stderr, err) := r in
  match err with
  | Some e => ret ("", Some (withMessage e stderr))
  | None => ret (out, None)
  end.

Definition GitResetCurrentBranch (c : NotOwnedFile) (repoDir : string) : M (option error) :=
  r <- DividedOutput (GitResetHard repoDir)
         (fun w => ("", with_repo (git_reset_hard (repo w)) w));;
  let '(_, stderr, err) := r in
  match err with
  | Some e => ret (Some (withMessage e stderr))
  | None => ret None
  end.

Definition GitListFiles (c : NotOwnedFile) (repoDir : string) : M (string * option error) :=
  let args := subDirectories c in
  r <- DividedOutput (GitLsFiles repoDir args)
         (fun w => (git_ls_files args (repo w), w));;
  let '(stdout, stderr, err) := r in
  match err with
  | Some e => ret ("", Some (withMessage e stderr))
  | None => ret (stdout, None)
  end.

Definition trustWorkspaceIfNeeded (c : NotOwnedFile) (repo_path : string) : M (option error) :=
  if negb (trustWorkspace c) then ret None
  else
    r <- DividedOutput (GitConfigAddSafeDirectory repo_path)
           (fun w =>
              ("", {| repo := repo w;
                      safe_directory := safe_directory w ++ [repo_path];
                      history := history w |}));;
    let '(_, stderr, err) := r in
    match err with
    | Some e => ret (Some (withMessage e stderr))
    | None => ret None
    end.

(** The loop walks the map in the order Go happens to take. *)
Definition skipPatternsList (c : NotOwnedFile) : string :=
  Join (range_order (skipPatterns c)) ",".

Definition ListFormatFunc (es : list string) : string :=
  Join (map (fun e => "            * " +:+ e) es) nl.

Definition emptyMessage : string :=
  "The CODEOWNERS file is empty. The files in the repository don't have any owner.".

Definition dirtyMessage : string :=
  "git state is dirty: commit all changes before executing this check".

(** The message of the last issue,
    [fmt.Sprintf("Found %d not owned files (skipped patterns: %q):\n%s", ...)]. *)
Definition notOwnedMessage (c : NotOwnedFile) (lines : list string) : string :=
  "Found " +:+ Sprintf_d (length lines) +:+ " not owned files (skipped patterns: "
    +:+ Quote (skipPatternsList c) +:+ "):" +:+ nl +:+ ListFormatFunc lines.

(** [Check] from the statement after the [defer] to its [return]: the
    values given to [return]. *)
Definition Check_steps (c : NotOwnedFile) (inp : Input) (patterns : list string)
    (bldr : api.OutputBuilder) : M (Output * option error) :=
  err <- AppendToGitignoreFile c (RepoDir inp) patterns;;
  match err with
  | Some e => ret (api.emptyOutput, Some e)
  | None =>
      err <- GitRemoveIgnoredFiles c (RepoDir inp);;
      match err with
      | Some e => ret (api.emptyOutput, Some e)
      | None =>
          r <- GitListFiles c (RepoDir inp);;
          let '(out, err) := r in
          match err with
          | Some e => ret (api.emptyOutput, Some e)
          | None =>
              let lsOut := TrimSpace out in
              let bldr :=
                if decide (lsOut ≠ "") then
                  let lines := Split lsOut "010"%char in
                  api.ReportIssue bldr (notOwnedMessage c lines)
                else bldr in
              ret (api.Output_of bldr, None)
          end
      end
  end.

(** The deferred function of [Check]; [output] and [err] are the named
    results, holding what the [return] statement gave. *)
Definition Check_deferred (c : NotOwnedFile) (inp : Input)
    (results : Output * option error) : M (Output * option error) :=
  let '(output, err) := results in
  errReset <- GitResetCurrentBranch c (RepoDir inp);;
  match err with
  | Some e =>
      let output := api.emptyOutput in
      let err := multierror.ErrorOrNil (multierror.Append (Some e) [errReset]) in
      ret (output, err)
  | None => ret (output, err)
  end.

Definition Check (c : NotOwnedFile) (ctx : Ctx) (inp : Input) : M (Output * option error) :=
  exit <- ShouldExit ctx;;
  if exit then
    err <- ctx_Err ctx;;
    ret (api.emptyOutput, err)
  else
    let bldr := api.newOutputBuilder in
    if decide (length (CodeownersEntries inp) = 0) then
      let bldr := api.ReportIssue bldr emptyMessage in
      ret (api.Output_of bldr, None)
    else
      let patterns := patternsToBeIgnored c (CodeownersEntries inp) in
      err <- trustWorkspaceIfNeeded c (RepoDir inp);;
      match err with
      | Some e => ret (api.emptyOutput, Some e)
      | None =>
          r <- GitCheckStatus c (RepoDir inp);;
          let '(statusOut, err) := r in
          match err with
          | Some e => ret (api.emptyOutput, Some e)
          | None =>
              if decide (String.length statusOut ≠ 0) then
                let bldr := api.ReportIssue bldr dirtyMessage in
                ret (api.Output_of bldr, None)
              else
                results <- Check_steps c inp patterns bldr;;
                Check_deferred c inp results
          end
      end.

End Check.

(** ** cmd/codeowners/codeowners.go: how the command ends *)

(** How the [Run] function of the root command ends: the process exits with
    a code, or [Run] returns. *)
Inductive Ending : Type :=
| Exit (code : nat)
| Returns.

(** What the calls made by [Run] gave: the errors of the four preparation
    steps, and, once the runner has run, the error of the context and the
    verdict of the runner. *)
Record RunOutcome : Type := {
  envconfig_Init : option error;
  load_Checks : option error;
  codeowners_NewFromPath : option error;
  filepath_Abs : option error;
  cmd_Context_Err : option error;
  ShouldExitWithCheckFailure : bool
}.

(** [exitOnError]: [logrus.Fatal] logs and exits with code 1. *)
Definition exitOnError (err : option error) (continue : list string * Ending)
    : list string * Ending :=
  match err with
  | Some _ => ([], Exit 1)
  | None => continue
  end.

(** [Run] after [checkRunner.Run]: the lines logged as errors and the
    ending. *)
Definition Run_after_runner (o : RunOutcome) : list string * Ending :=
  if decide (cmd_Context_Err o ≠ None) then
    (["Application was interrupted by operating system"], Exit 2)
  else if ShouldExitWithCheckFailure o then ([], Exit 3)
  else ([], Returns).

Definition Run (o : RunOutcome) : list string * Ending :=
  exitOnError (envconfig_Init o)
    (exitOnError (load_Checks o)
       (exitOnError (codeowners_NewFromPath o)
          (exitOnError (filepath_Abs o)
             (Run_after_runner o)))).

(** ** Concrete environments and repositories *)

(** Ignore rules that are file names: a path is ignored when it is one of
    the lines of the ignore-rules file. *)
Definition literal_rules (content : option string) (p : string) : bool :=
  match content with
  | None => false
  | Some s => bool_decide (p ≠ "" ∧ p ∈ Split s "010"%char)
  end.

Definition quoted (s : string) : string :=
  String "034"%char (s +:+ String "034"%char "").

(** Pathspecs that are file or directory names: a path is selected when
    it is one of them or lies under one of them. *)
Definition literal_pathspecs (specs : list string) (p : string) : bool :=
  existsb (fun a => String.eqb a p || String.prefix (a +:+ "/") p) specs.

(** The options of git rm among the items: -n and --dry-run, --no-cached,
    --sparse, -- (the items after it are pathspecs); any other item with a
    leading dash is taken as an option without effect here. *)
Fixpoint plain_rm_options_from (cmd : RmCommand) (items : list string) : RmCommand :=
  match items with
  | [] => cmd
  | a :: rest =>
      if String.eqb a "--" then
        {| dry_run := dry_run cmd; cached := cached cmd; sparse := sparse cmd;
           pathspecs := pathspecs cmd ++ rest |}
      else if String.eqb a "-n" || String.eqb a "--dry-run" then
        plain_rm_options_from
          {| dry_run := true; cached := cached cmd; sparse := sparse cmd;
             pathspecs := pathspecs cmd |} rest
      else if String.eqb a "--no-cached" then
        plain_rm_options_from
          {| dry_run := dry_run cmd; cached := false; sparse := sparse cmd;
             pathspecs := pathspecs cmd |} rest
      else if String.eqb a "--sparse" then
        plain_rm_options_from
          {| dry_run := dry_run cmd; cached := cached cmd; sparse := true;
             pathspecs := pathspecs cmd |} rest
      else if option_like a then plain_rm_options_from cmd rest
      else
        plain_rm_options_from
          {| dry_run := dry_run cmd; cached := cached cmd; sparse := sparse cmd;
             pathspecs := pathspecs cmd ++ [a] |} rest
  end.

Definition plain_rm_options (items : list string) : RmCommand :=
  plain_rm_options_from
    {| dry_run := false; cached := true; sparse := false; pathspecs := [] |} items.

(** An environment with literal ignore rules and pathspecs, no entry with
    the assume-unchanged or the skip-worktree bit, paths printed as they
    are, and maps walked in the order of [elements]. *)
Definition plainEnv (f : World -> Op -> option Failure) : Env :=
  {| ignored_by := literal_rules;
     assume_unchanged := fun _ => false;
     skip_worktree := fun _ => false;
     pathspecs_select := literal_pathspecs;
     printed_path := fun p => p;
     git_rm_options := plain_rm_options;
     range_order := elements;
     range_order_keys := fun keys => Permutation_refl (elements keys);
     Quote := quoted;
     fails := f |}.

(** Nothing fails. *)
Definition no_failure : World -> Op -> option Failure := fun _ _ => None.

(** Only git reset --hard fails. *)
Definition reset_fails : World -> Op -> option Failure :=
  fun _ op =>
    match op with
    | GitResetHard _ => Some {| stderr := "fatal: unable to write new index file";
                                cause := errorString "exit status 128" |}
    | _ => None
    end.

(** Only git ls-files fails. *)
Definition ls_files_fails : World -> Op -> option Failure :=
  fun _ op =>
    match op with
    | GitLsFiles _ _ => Some {| stderr := "fatal: not a git repository";
                                cause := errorString "exit status 128" |}
    | _ => None
    end.

(** git ls-files and git reset --hard both fail. *)
Definition ls_files_and_reset_fail : World -> Op -> option Failure :=
  fun w op =>
    match op with
    | GitLsFiles _ _ => ls_files_fails w op
    | _ => reset_fails w op
    end.

Definition three_files : gmap string string :=
  <["a.txt" := "alpha"]> (<["b.txt" := "beta"]> (<["c.txt" := "gamma"]> ∅)).

(** A clean repository with three committed files and no ignore-rules
    file. *)
Definition repo_without_gitignore : Repo :=
  {| head := three_files; index := three_files; worktree := three_files |}.

(** The same with a committed ignore-rules file that does not end in a
    new line. *)
Definition repo_with_gitignore : Repo :=
  let files := <[gitignore := "build"]> three_files in
  {| head := files; index := files; worktree := files |}.

(** The second repository once the check has appended the patterns a.txt
    and b.txt to the ignore-rules file. *)
Definition repo_after_append : Repo :=
  let files := <[gitignore := "build"]> three_files in
  {| head := files; index := files;
     worktree := <[gitignore := "build" +:+ nl +:+ "a.txt" +:+ nl +:+ "b.txt" +:+ nl]> files |}.

(** A repository with a committed file named -n, once the check has
    appended the patterns -n and a.txt to a new ignore-rules file; and the
    same with a file named --no-cached. *)
Definition repo_with_file_named (name : string) : Repo :=
  let files := <[name := "dash"]> three_files in
  {| head := files; index := files;
     worktree := <[gitignore := nl +:+ name +:+ nl +:+ "a.txt" +:+ nl]> files |}.

(** The first repository with a file added on disk and not committed. *)
Definition dirty_repo : Repo :=
  {| head := three_files; index := three_files;
     worktree := <["d.txt" := "delta"]> three_files |}.

Definition world_of (r : Repo) : World :=
  {| repo := r; safe_directory := []; history := [] |}.

Definition entries_ab : list Entry :=
  [ {| Pattern := "a.txt"; Owners := ["@alice"] |};
    {| Pattern := "b.txt"; Owners := ["@bob"] |} ].

Definition input_ab : Input :=
  {| RepoDir := "/repo"; CodeownersEntries := entries_ab |}.

Definition checker : NotOwnedFile :=
  NewNotOwnedFile {| TrustWorkspace := false; SkipPatterns := []; Subdirectories := [] |}.

(** The same checker with a.txt in its skip list. *)
Definition checker_skipping_a : NotOwnedFile :=
  NewNotOwnedFile {| TrustWorkspace := false; SkipPatterns := ["a.txt"]; Subdirectories := [] |}.

Definition Canceled : error := errorString "context canceled".

(** A token that is never cancelled, one cancelled before the check starts,
    and one cancelled while the first operation of the check runs. *)
Definition live : Ctx := fun _ => None.
Definition cancelled : Ctx := fun _ => Some Canceled.
Definition cancelled_during_first_operation : Ctx :=
  fun n => match n with 0 => None | S _ => Some Canceled end.

(** ** Notions the statements use *)

(** The token is not cancelled when the check is entered. *)
Definition live_at_entry (ctx : Ctx) (w : World) : Prop :=
  ctx (length (history w)) = None.

(** The block section 4.2 (step 3) asks to append to the ignore-rules file:
    one new line, then each pattern on a line of its own. *)
Definition appended_block (patterns : list string) : string :=
  nl +:+ concat_strings (map (fun p => p +:+ nl) patterns).

(** A file name has no NUL byte. *)
Fixpoint nul_free (s : string) : Prop :=
  match s with
  | "" => True
  | String a s' => a ≠ nul ∧ nul_free s'
  end.

(** A clean working tree: nothing staged, no tracked file changed or
    deleted on disk, no untracked file that is not ignored. *)
Definition clean {E : Env} (r : Repo) : Prop :=
  head r = index r
  ∧ (∀ p staged, index r !! p = Some staged → worktree r !! p = Some staged)
  ∧ (∀ p, index r !! p = None → is_Some (worktree r !! p) → ignored r p = true).

(** The paths the pruning pipeline hands to git rm: tracked and ignored. *)
Definition listed_for_removal {E : Env} (r : Repo) : list string :=
  List.filter (ignored r) (tracked_paths r).

(** git rm reads the listed paths as the names of exactly those files: none
    looks like an option, none has an entry with the skip-worktree bit, and
    as pathspecs they select, among the tracked paths, themselves and no
    other. *)
Definition read_literally {E : Env} (r : Repo) : Prop :=
  (∀ p, p ∈ listed_for_removal r → option_like p = false ∧ skip_worktree p = false)
  ∧ (∀ q, is_Some (index r !! q) →
          (pathspecs_select (listed_for_removal r) q = true ↔ q ∈ listed_for_removal r)).


(** The operations a trusting checker starts before the status query. *)
Definition trust_operations (c : NotOwnedFile) (inp : Input) : list Op :=
  if trustWorkspace c then [GitConfigAddSafeDirectory (RepoDir inp)] else [].

(** ** The rest of the checker, and notions for its behaviour *)

(** [Name] returns the human-readable name of the validator. *)
Definition Name : string := "[Experimental] Not Owned File Checker".

(** The status check of a run of [Check] has passed, leaving the world
    [w2]: the token was live at entry, there are ownership entries, the
    trust step gave no error and the status query answered with an empty
    output. *)
Definition passed_status_check {E : Env} (c : NotOwnedFile) (ctx : Ctx) (inp : Input)
    (w w2 : World) : Prop :=
  live_at_entry ctx w
  ∧ CodeownersEntries inp ≠ []
  ∧ ∃ w1, trustWorkspaceIfNeeded c (RepoDir inp) w = (None, w1)
          ∧ GitCheckStatus c (RepoDir inp) w1 = (("", None), w2).

(** The operations of a run up to the status query, and the operations that
    follow a passed status check up to the deferred reset, in the order of
    the source. *)
Definition preamble_operations (c : NotOwnedFile) (inp : Input) : list Op :=
  trust_operations c inp ++ [GitStatusPorcelain (RepoDir inp)].

Definition mutation_operations (c : NotOwnedFile) (inp : Input) : list Op :=
  [ OpenFileAppendCreate (RepoDir inp +:+ "/" +:+ gitignore);
    FileWriteString (RepoDir inp +:+ "/" +:+ gitignore)
      (appended_block (patternsToBeIgnored c (CodeownersEntries inp)));
    GitLsFilesIgnoredRmCached (RepoDir inp);
    GitLsFiles (RepoDir inp) (subDirectories c) ].


(** A string without the byte [sep]. *)
Fixpoint free_of (sep : ascii) (s : string) : Prop :=
  match s with
  | "" => True
  | String a s' => a ≠ sep ∧ free_of sep s'
  end.

(** One line of the list of [ListFormatFunc]. *)
Definition bullet (e : string) : string := "            * " +:+ e.

(** Only git config fails; only git status fails; only the opening of the
    ignore-rules file fails. *)
Definition config_fails : World -> Op -> option Failure :=
  fun _ op =>
    match op with
    | GitConfigAddSafeDirectory _ =>
        Some {| stderr := "error: could not lock config file";
                cause := errorString "exit status 255" |}
    | _ => None
    end.

Definition status_fails : World -> Op -> option Failure :=
  fun _ op =>
    match op with
    | GitStatusPorcelain _ =>
        Some {| stderr := "fatal: detected dubious ownership in repository";
                cause := errorString "exit status 128" |}
    | _ => None
    end.

Definition open_fails : World -> Op -> option Failure :=
  fun _ op =>
    match op with
    | OpenFileAppendCreate _ =>
        Some {| stderr := ""; cause := errorString "open /repo/.gitignore: permission denied" |}
    | _ => None
    end.

(** A checker that registers the repository as a safe directory. *)
Definition trusting_checker : NotOwnedFile :=
  NewNotOwnedFile {| TrustWorkspace := true; SkipPatterns := []; Subdirectories := [] |}.

(** A clean repository whose two files both have an owner in [entries_ab]. *)
Definition two_files : gmap string string :=
  <["a.txt" := "alpha"]> (<["b.txt" := "beta"]> ∅).

Definition repo_of_two_files : Repo :=
  {| head := two_files; index := two_files; worktree := two_files |}.

(** * Properties *)

(** ** Pattern exclusion *)

Lemma patternsToBeIgnored_loop_filter (c : NotOwnedFile) (entries : list Entry) :
  ∀ patterns : list string,
    patternsToBeIgnored_loop c patterns entries
    = patterns ++ ComputeExcludedPatterns entries (skipPatterns c).
Proof.
  unfold patternsToBeIgnored_loop, ComputeExcludedPatterns.
  induction entries as [|entry entries IH]; intros patterns; simpl.
  - by rewrite app_nil_r.
  - rewrite IH. destruct (decide (Pattern entry ∈ skipPatterns c)) as [Hin|Hout].
    + rewrite bool_decide_eq_false_2; [done | by intros Hn; apply Hn].
    + rewrite bool_decide_eq_true_2 by done. by rewrite <- app_assoc.
Qed.

(** C5. For every sequence of ownership entries and every skip set,
    [patternsToBeIgnored] returns the patterns of the entries, in entry
    order, without those that are members of the skip set: it is the filter
    of section 4.1.  A filter keeps every occurrence of a pattern it keeps,
    so duplicates are preserved; the function is total and has no other
    input and no error result. *)
Theorem patternsToBeIgnored_is_ComputeExcludedPatterns
    (c : NotOwnedFile) (entries : list Entry) :
  patternsToBeIgnored c entries = ComputeExcludedPatterns entries (skipPatterns c).
Proof.
  unfold patternsToBeIgnored. by rewrite patternsToBeIgnored_loop_filter.
Qed.

(** The skip set built by [NewNotOwnedFile] has the configured patterns as
    members, and no other. *)
Lemma NewNotOwnedFile_skipPatterns (cfg : NotOwnedFileConfig) (p : string) :
  p ∈ skipPatterns (NewNotOwnedFile cfg) ↔ p ∈ SkipPatterns cfg.
Proof.
  unfold NewNotOwnedFile; simpl.
  assert (∀ (l : list string) (s : gset string),
    p ∈ fold_left (fun (skip : gset string) q => {[ q ]} ∪ skip) l s ↔ p ∈ l ∨ p ∈ s) as H.
  { induction l as [|q l IH]; intros s; simpl.
    - set_solver.
    - rewrite IH. set_solver. }
  rewrite H. set_solver.
Qed.

(** Each occurrence of a pattern that is kept stays: the result has as many
    copies of a pattern outside the skip set as the entries have. *)
Lemma patternsToBeIgnored_keeps_duplicates (c : NotOwnedFile) (entries : list Entry) (p : string) :
  p ∉ skipPatterns c →
  count_occ string_dec (patternsToBeIgnored c entries) p
  = count_occ string_dec (map Pattern entries) p.
Proof.
  intros Hp. unfold patternsToBeIgnored. rewrite patternsToBeIgnored_loop_filter.
  unfold ComputeExcludedPatterns. simpl.
  induction (map Pattern entries) as [|q l IH]; simpl; [done|].
  destruct (decide (q ∈ skipPatterns c)) as [Hq|Hq].
  - rewrite bool_decide_eq_false_2 by (by intros Hn; apply Hn).
    destruct (string_dec q p) as [->|]; [done | exact IH].
  - rewrite bool_decide_eq_true_2 by done. simpl.
    destruct (string_dec q p); by rewrite IH.
Qed.

(** ** How the command ends *)

(** C9. Once the runner has completed (the four preparation steps gave no
    error), the process exits with code 2 exactly when the context carries
    an error, and with code 3 exactly when the context carries no error and
    [ShouldExitWithCheckFailure] is true: cancellation has priority over the
    failure of a check. *)
Theorem Run_exit_code (o : RunOutcome) :
  envconfig_Init o = None →
  load_Checks o = None →
  codeowners_NewFromPath o = None →
  filepath_Abs o = None →
  (snd (Run o) = Exit 2 ↔ cmd_Context_Err o ≠ None)
  ∧ (snd (Run o) = Exit 3 ↔ cmd_Context_Err o = None ∧ ShouldExitWithCheckFailure o = true)
  ∧ (cmd_Context_Err o ≠ None → ShouldExitWithCheckFailure o = true → snd (Run o) = Exit 2).
Proof.
  intros H1 H2 H3 H4. unfold Run, exitOnError, Run_after_runner.
  rewrite H1, H2, H3, H4.
  destruct (decide (cmd_Context_Err o ≠ None)) as [Hc|Hc]; simpl.
  - repeat split; try done. intros [? _]; done.
  - apply dec_stable in Hc.
    destruct (ShouldExitWithCheckFailure o); simpl; repeat split; try done;
      try (intros [_ ?]; done); intros ?; done.
Qed.

Lemma Run_exit_code_witness :
  let o := {| envconfig_Init := None; load_Checks := None;
              codeowners_NewFromPath := None; filepath_Abs := None;
              cmd_Context_Err := Some Canceled;
              ShouldExitWithCheckFailure := true |} in
  (snd (Run o) = Exit 2 ↔ cmd_Context_Err o ≠ None)
  ∧ (snd (Run o) = Exit 3 ↔ cmd_Context_Err o = None ∧ ShouldExitWithCheckFailure o = true)
  ∧ (cmd_Context_Err o ≠ None → ShouldExitWithCheckFailure o = true → snd (Run o) = Exit 2).
Proof.
  intros o. apply (Run_exit_code o); reflexivity.
Defined.

(** ** Strings *)

Lemma append_cons (x : ascii) (a b : string) : String x a +:+ b = String x (a +:+ b).
Proof. reflexivity. Qed.

Lemma append_empty_l (b : string) : "" +:+ b = b.
Proof. reflexivity. Qed.

Lemma append_assoc3 (a b c : string) : (a +:+ b) +:+ c = a +:+ b +:+ c.
Proof.
  induction a as [|x a IH]; [done|]. by rewrite !append_cons, IH.
Qed.

Lemma append_empty_r (a : string) : a +:+ "" = a.
Proof.
  induction a as [|x a IH]; [done|]. by rewrite append_cons, IH.
Qed.

Lemma length_zero_empty (s : string) : String.length s = 0 ↔ s = "".
Proof. destruct s; simpl; split; intros H; by try discriminate. Qed.

Lemma append_empty (a b : string) : a +:+ b = "" → a = "" ∧ b = "".
Proof. destruct a; [done|]. rewrite append_cons. discriminate. Qed.

Lemma concat_strings_empty (l : list string) :
  concat_strings l = "" → ∀ s, s ∈ l → s = "".
Proof.
  induction l as [|x l IH]; simpl; intros H s Hs.
  - by apply elem_of_nil in Hs.
  - apply append_empty in H as [Hx Hl].
    apply elem_of_cons in Hs as [->|Hs]; [done | by apply IH].
Qed.

Lemma elem_of_sorted_paths (paths : gset string) (p : string) :
  p ∈ sorted_paths paths ↔ p ∈ paths.
Proof.
  unfold sorted_paths. by rewrite merge_sort_Permutation, elem_of_elements.
Qed.

(** The loop of the string builder in [AppendToGitignoreFile]. *)
Lemma builder_content (patterns : list string) :
  ∀ content : string,
    fold_left (fun content p => content +:+ (p +:+ nl)) patterns content
    = content +:+ concat_strings (map (fun p => p +:+ nl) patterns).
Proof.
  induction patterns as [|p patterns IH]; intros content; simpl.
  - by rewrite append_empty_r.
  - by rewrite IH, append_assoc3.
Qed.

(** What xargs -0 reads back from a list of NUL-terminated file names is the
    list of the names. *)
Lemma xargs_items_from_item (p : string) :
  nul_free p →
  ∀ (cur rest : string),
    xargs_items_from cur (p +:+ String nul rest)
    = (cur +:+ p) :: xargs_items_from "" rest.
Proof.
  induction p as [|a p IH]; intros Hp cur rest.
  - rewrite append_empty_l, append_empty_r. reflexivity.
  - destruct Hp as [Ha Hp]. rewrite append_cons. simpl.
    destruct (Ascii.eqb_spec a nul) as [->|_]; [done|].
    rewrite IH by done. by rewrite append_assoc3.
Qed.

Lemma xargs_items_roundtrip (paths : list string) :
  (∀ p, p ∈ paths → nul_free p) →
  xargs_items_from "" (concat_strings (map (fun p => p +:+ String nul "") paths)) = paths.
Proof.
  induction paths as [|p paths IH]; intros Hfree; simpl; [done|].
  rewrite append_assoc3, append_cons, append_empty_l, xargs_items_from_item.
  - rewrite append_empty_l, IH; [done|]. intros q Hq. apply Hfree. by right.
  - apply Hfree. by left.
Qed.

(** ** The check *)

(** Unfold the scripts of the goal down to the oracle and split on whether
    the operation fails. *)
Ltac run_script :=
  unfold bind, ret, DividedOutput;
  match goal with
  | |- context [fails ?w ?op] => destruct (fails w op)
  end.

Section CheckProperties.
Context {E : Env}.
Implicit Types (c : NotOwnedFile) (ctx : Ctx) (inp : Input) (w : World).

Lemma Check_entry_live c ctx inp w :
  live_at_entry ctx w →
  Check c ctx inp w =
    (if decide (length (CodeownersEntries inp) = 0) then
       ret (api.Output_of (api.ReportIssue api.newOutputBuilder emptyMessage), None)
     else
       err <- trustWorkspaceIfNeeded c (RepoDir inp);;
       match err with
       | Some e => ret (api.emptyOutput, Some e)
       | None =>
           r <- GitCheckStatus c (RepoDir inp);;
           let '(statusOut, err) := r in
           match err with
           | Some e => ret (api.emptyOutput, Some e)
           | None =>
               if decide (String.length statusOut ≠ 0) then
                 ret (api.Output_of (api.ReportIssue api.newOutputBuilder dirtyMessage), None)
               else
                 results <- Check_steps c inp
                              (patternsToBeIgnored c (CodeownersEntries inp))
                              api.newOutputBuilder;;
                 Check_deferred c inp results
           end
       end) w.
Proof.
  intros Hlive. unfold Check, bind at 1, ShouldExit. unfold live_at_entry in Hlive.
  rewrite Hlive. rewrite bool_decide_eq_false_2; [done|]. by intros [? ?].
Qed.

(** C4. When the sequence of ownership entries is empty (and the token is
    not cancelled at entry), [Check] reports exactly one issue and returns
    a nil error, whatever the repository holds, and starts no operation at
    all: the world it leaves, history included, is the one it found. *)
Theorem Check_empty_entries c ctx inp w :
  live_at_entry ctx w →
  CodeownersEntries inp = [] →
  Check c ctx inp w = (({| Issues := [ {| Message := emptyMessage |} ] |}, None), w).
Proof.
  intros Hlive Hempty. rewrite Check_entry_live by done.
  rewrite Hempty. reflexivity.
Qed.

Lemma Check_entry_cancelled c ctx inp w (e : error) :
  ctx (length (history w)) = Some e →
  Check c ctx inp w = ((api.emptyOutput, Some e), w).
Proof.
  intros Hc. unfold Check, bind, ShouldExit, ctx_Err, ret.
  rewrite bool_decide_eq_true_2 by (rewrite Hc; eauto).
  by rewrite Hc.
Qed.

(** X23. After entry the token is not read again: a run under a token that is
    live at entry is the run under a token that is never cancelled. *)
Lemma Check_reads_token_at_entry_only c ctx inp w :
  live_at_entry ctx w →
  Check c ctx inp w = Check c live inp w.
Proof.
  intros Hlive. rewrite Check_entry_live by done.
  by rewrite (Check_entry_live c live).
Qed.

(** C8, as the code has it. The token is read once, at entry: when it is
    cancelled there, [Check] returns the token's error with an empty
    output and starts no operation, leaving the world as it found it. *)
Theorem Check_cancelled_at_entry c ctx inp w (e : error) :
  ctx (length (history w)) = Some e →
  Check c ctx inp w = ((api.emptyOutput, Some e), w).
Proof. apply Check_entry_cancelled. Qed.

(** The deferred function returns issues only with a nil error. *)
Lemma Check_deferred_error c inp (results : Output * option error) w
    (output : Output) (e : error) w' :
  Check_deferred c inp results w = ((output, Some e), w') →
  Issues output = [].
Proof.
  destruct results as [output0 [e0|]]; unfold Check_deferred, bind, ret;
    destruct (GitResetCurrentBranch c (RepoDir inp) w) as [errReset w1];
    intros H; by simplify_eq.
Qed.

Lemma Check_error_inv c ctx inp w (output : Output) (e : error) w' :
  Check c ctx inp w = ((output, Some e), w') →
  Issues output = [].
Proof.
  destruct (ctx (length (history w))) as [e0|] eqn:Hctx.
  - rewrite (Check_entry_cancelled c ctx inp w e0) by done.
    intros H; by simplify_eq.
  - rewrite Check_entry_live by done. unfold bind, ret.
    destruct (decide (length (CodeownersEntries inp) = 0)); [done|].
    destruct (trustWorkspaceIfNeeded c (RepoDir inp) w) as [[e1|] w1];
      [intros H; by simplify_eq|].
    destruct (GitCheckStatus c (RepoDir inp) w1) as [[statusOut [e2|]] w2];
      [intros H; by simplify_eq|].
    destruct (decide (String.length statusOut ≠ 0)); [done|].
    destruct (Check_steps c inp _ _ w2) as [results w3].
    apply Check_deferred_error.
Qed.

(** C10. Whenever [Check] returns a non-nil error, the output it returns
    with it has no issue, on every path, the deferred one included. *)
Theorem Check_error_without_issues c ctx inp w (e : error) :
  snd (fst (Check c ctx inp w)) = Some e →
  Issues (fst (fst (Check c ctx inp w))) = [].
Proof.
  destruct (Check c ctx inp w) as [[output err] w'] eqn:HC; simpl.
  intros ->. by eapply Check_error_inv.
Qed.

(** The operations, one by one. *)

Lemma trustWorkspaceIfNeeded_ok c (dir : string) w w1 :
  trustWorkspaceIfNeeded c dir w = (None, w1) →
  repo w1 = repo w
  ∧ history w1 = history w ++ (if trustWorkspace c then [GitConfigAddSafeDirectory dir] else []).
Proof.
  unfold trustWorkspaceIfNeeded, bind, ret, DividedOutput.
  destruct (trustWorkspace c); simpl.
  - destruct (fails w (GitConfigAddSafeDirectory dir)); simpl; intros H; by simplify_eq.
  - intros H; simplify_eq. by rewrite app_nil_r.
Qed.

Lemma GitCheckStatus_ok c (dir : string) w w2 (statusOut : string) :
  GitCheckStatus c dir w = ((statusOut, None), w2) →
  w2 = started (GitStatusPorcelain dir) w
  ∧ statusOut = git_status_porcelain (repo w).
Proof.
  unfold GitCheckStatus, bind, ret, DividedOutput.
  destruct (fails w (GitStatusPorcelain dir)); simpl; intros H; by simplify_eq.
Qed.

(** C3. When the status query answers with a non-empty output (the token
    being live at entry, the entries non-empty and the trust step, if
    configured, successful), [Check] reports exactly one issue, the
    dirty-tree message, with a nil error; the repository it leaves (HEAD,
    index and every file on disk, the ignore-rules file among them) is the
    one it found, and the only operations it started are the trust
    registration, if configured, and the status query. *)
Theorem Check_dirty_tree c ctx inp w w1 w2 (statusOut : string) :
  live_at_entry ctx w →
  CodeownersEntries inp ≠ [] →
  trustWorkspaceIfNeeded c (RepoDir inp) w = (None, w1) →
  GitCheckStatus c (RepoDir inp) w1 = ((statusOut, None), w2) →
  statusOut ≠ "" →
  Check c ctx inp w = (({| Issues := [ {| Message := dirtyMessage |} ] |}, None), w2)
  ∧ statusOut = git_status_porcelain (repo w)
  ∧ repo w2 = repo w
  ∧ history w2 = history w ++ trust_operations c inp ++ [GitStatusPorcelain (RepoDir inp)].
Proof.
  intros Hlive Hne Htrust Hstatus Hout.
  destruct (trustWorkspaceIfNeeded_ok _ _ _ _ Htrust) as [Hr1 Hh1].
  destruct (GitCheckStatus_ok _ _ _ _ _ Hstatus) as [-> ->].
  repeat split.
  - rewrite Check_entry_live by done.
    destruct (decide (length (CodeownersEntries inp) = 0)) as [H0|_].
    { by apply length_zero_iff_nil in H0. }
    unfold bind at 1. rewrite Htrust. unfold bind at 1. rewrite Hstatus.
    destruct (decide (String.length (git_status_porcelain (repo w1)) ≠ 0)) as [_|Hz];
      [done|].
    exfalso. apply Hz. by rewrite length_zero_empty.
  - by rewrite Hr1.
  - done.
  - simpl. rewrite Hh1. unfold trust_operations. by rewrite <- app_assoc.
Qed.

(** *** Appending to the ignore-rules file *)

Lemma AppendToGitignoreFile_ok c (dir : string) (patterns : list string) w w' :
  AppendToGitignoreFile c dir patterns w = (None, w') →
  worktree (repo w') !! gitignore
  = Some (default "" (worktree (repo w) !! gitignore) +:+ appended_block patterns)
  ∧ (∀ p, p ≠ gitignore → worktree (repo w') !! p = worktree (repo w) !! p)
  ∧ index (repo w') = index (repo w)
  ∧ head (repo w') = head (repo w).
Proof.
  unfold AppendToGitignoreFile, bind, ret, OpenFile.
  destruct (fails w _) as [f|]; [intros H; by simplify_eq|].
  unfold WriteString.
  destruct (fails _ _) as [f|]; [intros H; by simplify_eq|].
  intros H; simplify_eq. simpl. rewrite builder_content. unfold appended_block.
  destruct (worktree (repo w) !! gitignore) as [old|] eqn:Hold; simpl.
  - rewrite Hold. simpl. rewrite lookup_insert_eq. repeat split; try done.
    intros p Hp. by rewrite lookup_insert_ne.
  - rewrite !lookup_insert_eq. simpl. repeat split; try done.
    intros p Hp. by rewrite !lookup_insert_ne.
Qed.

(** C6. For every content [old] of an existing ignore-rules file and every
    sequence of patterns, a call of [AppendToGitignoreFile] that returns
    nil leaves the file with [old], unchanged, followed by one new-line
    byte and then each pattern followed by a new-line byte; so the first
    pattern starts a line whether or not [old] ends in a new line.
    Nothing else changes: the other files, the index and HEAD. *)
Theorem AppendToGitignoreFile_appends c (dir : string) (patterns : list string)
    w w' (old : string) :
  worktree (repo w) !! gitignore = Some old →
  AppendToGitignoreFile c dir patterns w = (None, w') →
  worktree (repo w') !! gitignore
  = Some (old +:+ nl +:+ concat_strings (map (fun p => p +:+ nl) patterns))
  ∧ (∀ p, p ≠ gitignore → worktree (repo w') !! p = worktree (repo w) !! p)
  ∧ index (repo w') = index (repo w)
  ∧ head (repo w') = head (repo w).
Proof.
  intros Hold Hrun. apply AppendToGitignoreFile_ok in Hrun.
  by rewrite Hold in Hrun.
Qed.

(** The call returns nil when neither the opening nor the writing fails. *)
Lemma AppendToGitignoreFile_succeeds c (dir : string) (patterns : list string) w :
  (∀ w0 op, fails w0 op = None) →
  fst (AppendToGitignoreFile c dir patterns w) = None.
Proof.
  intros Hok. unfold AppendToGitignoreFile, bind, ret, OpenFile, WriteString.
  rewrite Hok. by rewrite Hok.
Qed.

(** *** Pruning the index *)

Lemma elem_of_ignored_tracked (r : Repo) (p : string) :
  p ∈ List.filter (ignored r) (tracked_paths r)
  ↔ is_Some (index r !! p) ∧ ignored r p = true.
Proof.
  rewrite list_elem_of_In, filter_In, <- list_elem_of_In.
  unfold tracked_paths. by rewrite elem_of_sorted_paths, elem_of_dom.
Qed.

Lemma git_ls_files_ci_z_items (r : Repo) :
  (∀ p, is_Some (index r !! p) → nul_free p) →
  xargs_items_from "" (git_ls_files_ci_z r) = List.filter (ignored r) (tracked_paths r).
Proof.
  intros Hfree. unfold git_ls_files_ci_z. apply xargs_items_roundtrip.
  intros p Hp. apply Hfree. by apply elem_of_ignored_tracked in Hp as [? _].
Qed.

(** What the pipeline does when it does not fail and git rm reads the
    listed paths literally. *)
Lemma pipeline_prunes (r : Repo) :
  (∀ p, is_Some (index r !! p) → nul_free p) →
  read_literally r →
  let r' := xargs_0_r git_rm_cached (git_ls_files_ci_z r) r in
  (∀ p, index r' !! p = if ignored r p then None else index r !! p)
  ∧ worktree r' = worktree r
  ∧ head r' = head r.
Proof.
  intros Hfree [Hplain Hsel]. unfold xargs_0_r. rewrite git_ls_files_ci_z_items by done.
  fold (listed_for_removal r) in *.
  destruct (listed_for_removal r) as [|q l] eqn:Hl.
  - repeat split. intros p. destruct (ignored r p) eqn:Hi; [|done].
    destruct (index r !! p) as [x|] eqn:Hx; [|done].
    assert (p ∈ listed_for_removal r) as Hin.
    { apply elem_of_ignored_tracked. rewrite Hx. eauto. }
    rewrite Hl in Hin. by apply elem_of_nil in Hin.
  - rewrite <- Hl in *. clear Hl.
    assert (existsb option_like (listed_for_removal r) = false) as Hno.
    { apply not_true_is_false. intros Hex. apply existsb_exists in Hex as (a & Ha & Hopt).
      apply list_elem_of_In, Hplain in Ha as [Ha _]. congruence. }
    unfold git_rm_cached, git_rm_reads. rewrite Hno. simpl. repeat split. intros p.
    destruct (index r !! p) as [x|] eqn:Hx.
    + assert (removed_by
                {| dry_run := false; cached := true; sparse := false;
                   pathspecs := listed_for_removal r |} r p = ignored r p) as Hrem.
      { unfold removed_by. simpl. rewrite bool_decide_eq_true_2 by (rewrite Hx; eauto).
        simpl. destruct (ignored r p) eqn:Hi.
        - assert (p ∈ listed_for_removal r) as Hin.
          { apply elem_of_ignored_tracked. rewrite Hx. eauto. }
          destruct (Hplain p Hin) as [_ ->].
          rewrite (proj2 (Hsel p ltac:(rewrite Hx; eauto)) Hin). done.
        - apply andb_false_intro1. apply not_true_is_false. intros Hs.
          apply Hsel in Hs; [|rewrite Hx; eauto].
          apply elem_of_ignored_tracked in Hs as [_ ?]. congruence. }
      destruct (ignored r p) eqn:Hi.
      * apply map_lookup_filter_None_2. right. intros y Hy. simpl. congruence.
      * apply map_lookup_filter_Some_2; [done|]. simpl. congruence.
    + rewrite (map_lookup_filter_None_2 _ _ p) by (by left).
      by destruct (ignored r p).
Qed.

(** Pruning, where the code achieves it. When the pruning step does not
    fail and git rm reads the listed paths literally (tracked paths being
    file names, without NUL byte), a path is in the index afterwards exactly
    when it was tracked before and the ignore rules in force do not match
    it, and then with the same staged content; the files on disk and the
    committed tree are exactly as before. *)
Lemma GitRemoveIgnoredFiles_prunes_listed c (dir : string) w w' :
  (∀ p, is_Some (index (repo w) !! p) → nul_free p) →
  read_literally (repo w) →
  GitRemoveIgnoredFiles c dir w = (None, w') →
  (∀ p, index (repo w') !! p
        = if ignored (repo w) p then None else index (repo w) !! p)
  ∧ worktree (repo w') = worktree (repo w)
  ∧ head (repo w') = head (repo w).
Proof.
  intros Hfree Hlit. unfold GitRemoveIgnoredFiles, bind, ret, DividedOutput.
  destruct (fails w _) as [f|]; [intros H; by simplify_eq|].
  intros H; simplify_eq. simpl. by apply pipeline_prunes.
Qed.

(** *** The deferred reset *)

Lemma ErrorOrNil_Append (e : error) (r : error) :
  (∀ es, r ≠ multiError es) →
  multierror.ErrorOrNil (multierror.Append (Some e) [Some r])
  = Some (multiError (multierror.flatten (Some e) ++ [r])).
Proof.
  intros Hr. unfold multierror.Append.
  destruct r as [s'|r' msg'|rs]; [| |by destruct (Hr rs)];
    (destruct e as [s|e' msg|es]; simpl; try done; by destruct es).
Qed.

(** The deferred function starts exactly one operation, the hard reset. *)
Lemma Check_deferred_history c inp (results : Output * option error) w :
  history (snd (Check_deferred c inp results w))
  = history w ++ [GitResetHard (RepoDir inp)].
Proof.
  destruct results as [output err].
  unfold Check_deferred, GitResetCurrentBranch.
  run_script; simpl; by destruct err.
Qed.

(** When the steps ended with an error and the reset fails too, both
    errors are returned, the first one first, in one multi-error. *)
Lemma Check_deferred_combines c inp (output : Output) (e : error) w (f : Failure) :
  fails w (GitResetHard (RepoDir inp)) = Some f →
  fst (Check_deferred c inp (output, Some e) w)
  = (api.emptyOutput,
     Some (multiError (multierror.flatten (Some e) ++ [withMessage (cause f) (stderr f)]))).
Proof.
  intros Hf. unfold Check_deferred, GitResetCurrentBranch, bind, ret, DividedOutput.
  rewrite Hf. cbn -[multierror.Append multierror.ErrorOrNil].
  by rewrite ErrorOrNil_Append.
Qed.

(** When the steps ended with an error and the reset succeeds, that error
    is returned, in a multi-error. *)
Lemma Check_deferred_keeps_error c inp (output : Output) (e : error) w :
  fails w (GitResetHard (RepoDir inp)) = None →
  fst (Check_deferred c inp (output, Some e) w)
  = (api.emptyOutput, multierror.ErrorOrNil (multierror.flatten (Some e))).
Proof.
  intros Hf. unfold Check_deferred, GitResetCurrentBranch, bind, ret, DividedOutput.
  rewrite Hf. simpl. unfold multierror.Append.
  destruct e as [s|e' msg|es]; simpl; by rewrite ?app_nil_r.
Qed.

(** When the steps ended without error, the deferred function returns
    their output and a nil error, whether the reset failed or not. *)
Lemma Check_deferred_without_error c inp (output : Output) w :
  fst (Check_deferred c inp (output, None) w) = (output, None).
Proof.
  unfold Check_deferred, GitResetCurrentBranch. by run_script.
Qed.

(** Once the status query has answered with an empty output, [Check] is
    the steps followed by the deferred function. *)
Lemma Check_clean_tree c ctx inp w w1 w2 :
  live_at_entry ctx w →
  CodeownersEntries inp ≠ [] →
  trustWorkspaceIfNeeded c (RepoDir inp) w = (None, w1) →
  GitCheckStatus c (RepoDir inp) w1 = (("", None), w2) →
  Check c ctx inp w
  = (results <- Check_steps c inp (patternsToBeIgnored c (CodeownersEntries inp))
                  api.newOutputBuilder;;
     Check_deferred c inp results) w2.
Proof.
  intros Hlive Hne Htrust Hstatus. rewrite Check_entry_live by done.
  destruct (decide (length (CodeownersEntries inp) = 0)) as [H0|_].
  { by apply length_zero_iff_nil in H0. }
  unfold bind at 1. rewrite Htrust. unfold bind at 1. by rewrite Hstatus.
Qed.

(** On every path that follows a passed status check, the last operation
    [Check] starts before it returns is the hard reset. *)
Lemma Check_resets_before_returning c ctx inp w w1 w2 :
  live_at_entry ctx w →
  CodeownersEntries inp ≠ [] →
  trustWorkspaceIfNeeded c (RepoDir inp) w = (None, w1) →
  GitCheckStatus c (RepoDir inp) w1 = (("", None), w2) →
  last (history (snd (Check c ctx inp w))) = Some (GitResetHard (RepoDir inp)).
Proof.
  intros Hlive Hne Htrust Hstatus.
  rewrite (Check_clean_tree c ctx inp w w1 w2) by done.
  unfold bind. destruct (Check_steps c inp _ _ w2) as [results w3].
  rewrite Check_deferred_history. by rewrite last_snoc.
Qed.

(** *** What the reset restores *)

Lemma status_lines_empty (r : Repo) (p : string) :
  status_lines r p = "" →
  head r !! p = index r !! p
  ∧ (∀ staged, index r !! p = Some staged → hidden p = false →
               worktree r !! p = Some staged)
  ∧ (index r !! p = None → is_Some (worktree r !! p) → ignored r p = true).
Proof.
  unfold status_lines.
  destruct (index r !! p) as [staged|].
  - destruct (decide _) as [[HX HY]|_].
    + intros _. split; [|split; [|done]].
      * destruct (head r !! p) as [committed|]; [|discriminate].
        destruct (decide (committed = staged)); [by subst | discriminate].
      * intros ? [= <-] Hh. rewrite Hh in HY.
        destruct (worktree r !! p) as [file|]; [|discriminate].
        destruct (decide (file = staged)); [by subst | discriminate].
    + destruct (head r !! p) as [committed|];
        [destruct (decide (committed = staged))|]; rewrite append_cons; discriminate.
  - destruct (head r !! p); [rewrite !append_cons; discriminate|].
    rewrite append_empty_l. intros Hu. split; [done|]. split; [done|].
    intros _ [file Hf]. rewrite Hf in Hu.
    destruct (ignored r p); [done|]. rewrite !append_cons in Hu. discriminate.
Qed.

(** An empty status output: the index is the committed tree, every tracked
    file that git status looks at is on disk with its staged content, and
    every untracked file is ignored. A file behind an assume-unchanged or
    skip-worktree bit may differ. *)
Lemma clean_tree (r : Repo) :
  git_status_porcelain r = "" →
  head r = index r
  ∧ (∀ p staged, index r !! p = Some staged → hidden p = false →
                 worktree r !! p = Some staged)
  ∧ (∀ p, index r !! p = None → is_Some (worktree r !! p) → ignored r p = true).
Proof.
  intros Hclean.
  assert (∀ p, head r !! p = index r !! p
               ∧ (∀ staged, index r !! p = Some staged → hidden p = false →
                            worktree r !! p = Some staged)
               ∧ (index r !! p = None → is_Some (worktree r !! p) → ignored r p = true)) as H.
  { intros p. destruct (decide (p ∈ all_paths r)) as [Hin|Hout].
    - apply status_lines_empty.
      apply (concat_strings_empty _ Hclean). by apply list_elem_of_fmap_2.
    - unfold all_paths in Hout. rewrite elem_of_sorted_paths in Hout.
      rewrite !elem_of_union, !elem_of_dom in Hout.
      destruct (head r !! p) eqn:Hh; [destruct Hout; eauto|].
      destruct (index r !! p) eqn:Hi; [destruct Hout; eauto|].
      split; [done|]. split; [done|]. intros _ Hw. destruct Hout; eauto. }
  split; [apply map_eq; intros p; apply H|].
  split; intros p; apply H.
Qed.

(** The status output of a clean working tree is empty. *)
Lemma clean_git_status_porcelain (r : Repo) :
  clean r → git_status_porcelain r = "".
Proof.
  intros (Hhi & Hiw & Hu). unfold git_status_porcelain.
  induction (all_paths r) as [|p l IH]; simpl; [done|].
  rewrite IH, append_empty_r. unfold status_lines. rewrite Hhi.
  destruct (index r !! p) as [staged|] eqn:Hi.
  - rewrite (Hiw p staged Hi).
    destruct (decide (staged = staged)) as [_|?]; [|done].
    destruct (hidden p); by rewrite decide_True.
  - rewrite append_empty_l.
    destruct (worktree r !! p) as [file|] eqn:Hf; [|done].
    rewrite Hu; [done | done | eauto].
Qed.

(** Where no entry carries the assume-unchanged or the skip-worktree bit,
    the status output is empty exactly for a clean working tree. *)
Lemma git_status_porcelain_clean (r : Repo) :
  (∀ p, hidden p = false) →
  git_status_porcelain r = "" ↔ clean r.
Proof.
  intros Hvisible. split; [|apply clean_git_status_porcelain].
  intros Hclean. destruct (clean_tree r Hclean) as (Hhi & Hiw & Hu).
  repeat split; [done| |done]. intros p staged Hp. by apply Hiw.
Qed.



Lemma GitListFiles_repo c (dir : string) w :
  repo (snd (GitListFiles c dir w)) = repo w.
Proof. unfold GitListFiles. by run_script. Qed.

(** What a sequence of steps may have done to the repository [r] when it
    leaves [r']: the committed tree is the same, paths may have left the
    index, and only the ignore-rules file may differ on disk. *)
Lemma AppendToGitignoreFile_frame c (dir : string) (patterns : list string) w :
  let r := repo w in
  let r' := repo (snd (AppendToGitignoreFile c dir patterns w)) in
  head r' = head r ∧ index r' = index r
  ∧ ∀ p, p ≠ gitignore → worktree r' !! p = worktree r !! p.
Proof.
  unfold AppendToGitignoreFile, bind, ret, OpenFile, WriteString.
  destruct (fails w _) as [f|]; simpl; [done|].
  destruct (fails _ _) as [f|]; simpl; repeat split; try done;
    intros p Hp; destruct (worktree (repo w) !! gitignore);
    by rewrite ?lookup_insert_ne.
Qed.

Lemma git_rm_cached_frame (items : list string) (r : Repo) :
  let r' := git_rm_cached items r in
  head r' = head r
  ∧ (∀ p, index r' !! p = None ∨ index r' !! p = index r !! p)
  ∧ ∀ p, worktree r' !! p = worktree r !! p
         ∨ (is_Some (index r !! p) ∧ index r' !! p = None).
Proof.
  unfold git_rm_cached. destruct (dry_run (git_rm_reads items)); simpl.
  { split; [done|]. split; intros p; [by right | by left]. }
  set (cmd := git_rm_reads items).
  assert (∀ p, removed_by cmd r p = true →
               is_Some (index r !! p)
               ∧ filter (fun kv => removed_by cmd r kv.1 = false) (index r) !! p = None) as Hrem.
  { intros p Hp. split.
    - unfold removed_by in Hp. apply andb_true_iff in Hp as [Hp _].
      apply andb_true_iff in Hp as [Hp _]. by apply bool_decide_eq_true in Hp.
    - apply map_lookup_filter_None_2. right. intros x _. simpl. congruence. }
  split; [done|]. split; intros p.
  - destruct (index r !! p) as [x|] eqn:Hx.
    + destruct (removed_by cmd r p) eqn:Hp; [left; by apply Hrem|].
      right. by apply map_lookup_filter_Some_2.
    + left. apply map_lookup_filter_None_2. by left.
  - destruct (cached cmd); [by left|].
    destruct (removed_by cmd r p) eqn:Hp; [right; by apply Hrem|].
    left. destruct (worktree r !! p) as [x|] eqn:Hx.
    + by apply map_lookup_filter_Some_2.
    + apply map_lookup_filter_None_2. by left.
Qed.

Lemma GitRemoveIgnoredFiles_frame c (dir : string) w :
  let r := repo w in
  let r' := repo (snd (GitRemoveIgnoredFiles c dir w)) in
  head r' = head r
  ∧ (∀ p, index r' !! p = None ∨ index r' !! p = index r !! p)
  ∧ ∀ p, worktree r' !! p = worktree r !! p
         ∨ (is_Some (index r !! p) ∧ index r' !! p = None).
Proof.
  unfold GitRemoveIgnoredFiles, bind, ret, DividedOutput.
  destruct (fails w _) as [f|]; simpl.
  { split; [done|]. split; intros p; [by right | by left]. }
  unfold xargs_0_r. destruct (xargs_items_from _ _) as [|q l]; simpl.
  { split; [done|]. split; intros p; [by right | by left]. }
  apply git_rm_cached_frame.
Qed.

(** What the steps may have done to the repository when they end: the
    committed tree is the same, paths may have left the index, and a file
    other than the ignore-rules file differs only if its path has left the
    index. *)
Lemma Check_steps_frame c inp (patterns : list string) (bldr : api.OutputBuilder)
    w (results : Output * option error) w' :
  Check_steps c inp patterns bldr w = (results, w') →
  head (repo w') = head (repo w)
  ∧ (∀ p, index (repo w') !! p = None ∨ index (repo w') !! p = index (repo w) !! p)
  ∧ ∀ p, p ≠ gitignore →
         worktree (repo w') !! p = worktree (repo w) !! p
         ∨ (is_Some (index (repo w) !! p) ∧ index (repo w') !! p = None).
Proof.
  unfold Check_steps, bind, ret.
  pose proof (AppendToGitignoreFile_frame c (RepoDir inp) patterns w) as Ha.
  destruct (AppendToGitignoreFile c (RepoDir inp) patterns w) as [[e|] w1];
    simpl in Ha; destruct Ha as (Hh1 & Hi1 & Hw1).
  { intros H; simplify_eq. rewrite Hi1. split; [done|].
    split; intros p; [by right | intros Hp; left; by apply Hw1]. }
  pose proof (GitRemoveIgnoredFiles_frame c (RepoDir inp) w1) as Hb.
  assert (∀ w2, head (repo w2) = head (repo w1) →
                (∀ p, index (repo w2) !! p = None
                      ∨ index (repo w2) !! p = index (repo w1) !! p) →
                (∀ p, worktree (repo w2) !! p = worktree (repo w1) !! p
                      ∨ (is_Some (index (repo w1) !! p) ∧ index (repo w2) !! p = None)) →
                head (repo w2) = head (repo w)
                ∧ (∀ p, index (repo w2) !! p = None
                        ∨ index (repo w2) !! p = index (repo w) !! p)
                ∧ ∀ p, p ≠ gitignore →
                       worktree (repo w2) !! p = worktree (repo w) !! p
                       ∨ (is_Some (index (repo w) !! p) ∧ index (repo w2) !! p = None)) as Hjoin.
  { intros w2 Hh2 Hi2 Hw2. rewrite Hh2, Hh1. split; [done|]. split; intros p.
    - rewrite <- Hi1. apply Hi2.
    - intros Hp. rewrite <- Hi1, <- (Hw1 p Hp). apply Hw2. }
  destruct (GitRemoveIgnoredFiles c (RepoDir inp) w1) as [[e|] w2];
    simpl in Hb; destruct Hb as (Hh2 & Hi2 & Hw2).
  { intros H; simplify_eq. by apply Hjoin. }
  pose proof (GitListFiles_repo c (RepoDir inp) w2) as Hc.
  destruct (GitListFiles c (RepoDir inp) w2) as [[out [e|]] w3];
    simpl in Hc; intros H; simplify_eq; rewrite Hc; by apply Hjoin.
Qed.



(** *** What the reset does not restore *)

Section NothingFails.
Hypothesis nothing_fails : ∀ w0 op, fails w0 op = None.

Lemma trustWorkspaceIfNeeded_succeeds c (dir : string) w :
  fst (trustWorkspaceIfNeeded c dir w) = None.
Proof.
  unfold trustWorkspaceIfNeeded, bind, ret, DividedOutput.
  destruct (trustWorkspace c); simpl; [|done]. by rewrite nothing_fails.
Qed.

Lemma GitCheckStatus_succeeds c (dir : string) w :
  GitCheckStatus c dir w
  = ((git_status_porcelain (repo w), None), started (GitStatusPorcelain dir) w).
Proof.
  unfold GitCheckStatus, bind, ret, DividedOutput. by rewrite nothing_fails.
Qed.

(** The status check passes on a clean repository when nothing fails. *)
Lemma clean_passes_status_check c ctx inp w :
  live_at_entry ctx w →
  CodeownersEntries inp ≠ [] →
  clean (repo w) →
  ∃ w1, repo w1 = repo w
        ∧ Check c ctx inp w
          = (results <- Check_steps c inp (patternsToBeIgnored c (CodeownersEntries inp))
                          api.newOutputBuilder;;
             Check_deferred c inp results) (started (GitStatusPorcelain (RepoDir inp)) w1).
Proof.
  intros Hlive Hne Hclean.
  destruct (trustWorkspaceIfNeeded c (RepoDir inp) w) as [err w1] eqn:Ht.
  pose proof (trustWorkspaceIfNeeded_succeeds c (RepoDir inp) w) as Hnil.
  rewrite Ht in Hnil. simpl in Hnil. subst err.
  destruct (trustWorkspaceIfNeeded_ok _ _ _ _ Ht) as [Hr1 _].
  exists w1. split; [done|].
  apply (Check_clean_tree c ctx inp w w1); [done..|].
  by rewrite GitCheckStatus_succeeds, Hr1, clean_git_status_porcelain.
Qed.

Lemma Check_steps_gitignore c inp (patterns : list string) (bldr : api.OutputBuilder)
    w (results : Output * option error) w' :
  index (repo w) !! gitignore = None →
  Check_steps c inp patterns bldr w = (results, w') →
  worktree (repo w') !! gitignore
  = Some (default "" (worktree (repo w) !! gitignore) +:+ appended_block patterns).
Proof.
  intros Huntracked. unfold Check_steps, bind, ret.
  pose proof (AppendToGitignoreFile_succeeds c (RepoDir inp) patterns w nothing_fails) as Hnil.
  destruct (AppendToGitignoreFile c (RepoDir inp) patterns w) as [err w1] eqn:Ha.
  simpl in Hnil. subst err. apply AppendToGitignoreFile_ok in Ha as (Hg & _ & Hi1 & _).
  pose proof (GitRemoveIgnoredFiles_frame c (RepoDir inp) w1) as Hb.
  assert (∀ w2, (∀ p, worktree (repo w2) !! p = worktree (repo w1) !! p
                      ∨ (is_Some (index (repo w1) !! p) ∧ index (repo w2) !! p = None)) →
                worktree (repo w2) !! gitignore = worktree (repo w1) !! gitignore) as Hkeep.
  { intros w2 Hw2. destruct (Hw2 gitignore) as [?|[Hin _]]; [done|].
    rewrite Hi1, Huntracked in Hin. by destruct Hin. }
  destruct (GitRemoveIgnoredFiles c (RepoDir inp) w1) as [[e|] w2];
    simpl in Hb; destruct Hb as (_ & _ & Hw2).
  { intros H; simplify_eq. by rewrite Hkeep. }
  pose proof (GitListFiles_repo c (RepoDir inp) w2) as Hc.
  destruct (GitListFiles c (RepoDir inp) w2) as [[out [e|]] w3];
    simpl in Hc; intros H; simplify_eq; by rewrite Hc, Hkeep.
Qed.

(** X24. On a clean repository without ignore-rules file, when nothing fails,
    [Check] returns with an ignore-rules file on disk: the one it created,
    holding the block it appended. *)
Lemma Check_keeps_created_gitignore c ctx inp w :
  live_at_entry ctx w →
  CodeownersEntries inp ≠ [] →
  clean (repo w) →
  worktree (repo w) !! gitignore = None →
  worktree (repo (snd (Check c ctx inp w))) !! gitignore
  = Some (appended_block (patternsToBeIgnored c (CodeownersEntries inp))).
Proof.
  intros Hlive Hne Hclean Hnone.
  destruct (clean_passes_status_check c ctx inp w) as (w1 & Hr1 & ->); [done..|].
  destruct Hclean as (Hhi & Hiw & _).
  assert (index (repo w) !! gitignore = None) as Hig.
  { destruct (index (repo w) !! gitignore) as [staged|] eqn:Hs; [|done].
    apply Hiw in Hs. congruence. }
  unfold bind.
  destruct (Check_steps c inp _ _ _) as [[output err] w3] eqn:Hsteps.
  pose proof Hsteps as Hg.
  apply Check_steps_gitignore in Hg; [|simpl; by rewrite Hr1].
  apply Check_steps_frame in Hsteps as (Hh & Hi & _).
  simpl in Hg, Hh, Hi. rewrite Hr1 in Hg, Hh, Hi. rewrite Hnone in Hg. simpl in Hg.
  rewrite append_empty_l in Hg.
  unfold Check_deferred, GitResetCurrentBranch, bind, ret, DividedOutput.
  rewrite nothing_fails.
  assert (index (repo w3) !! gitignore = None) as Hig3.
  { destruct (Hi gitignore) as [?|Heq]; [done | by rewrite Heq]. }
  assert (worktree (git_reset_hard (repo w3)) !! gitignore
          = Some (appended_block (patternsToBeIgnored c (CodeownersEntries inp)))) as Hres.
  { unfold git_reset_hard; simpl.
    rewrite lookup_union_r
      by (apply map_lookup_filter_None_2; left; by rewrite Hh, Hhi).
    apply map_lookup_filter_Some_2; [done|]. simpl. by left. }
  by destruct err.
Qed.

End NothingFails.

End CheckProperties.

(** ** The check on concrete repositories *)

Lemma all_tracked (P : string → Prop) (r : Repo) :
  Forall P (tracked_paths r) → ∀ p, is_Some (index r !! p) → P p.
Proof.
  intros Hall p Hp. rewrite Forall_forall in Hall. apply Hall.
  unfold tracked_paths. by rewrite elem_of_sorted_paths, elem_of_dom.
Qed.

(** C1. A clean repository, two ownership entries, every step succeeds and
    git reset --hard, started last, fails: [Check] returns a nil error
    together with the issue it found.  The failure of the restoration is
    lost, and the ignore-rules file stays as the check rewrote it. *)
Theorem Check_loses_reset_failure :
  last (history (snd (Check (E := plainEnv reset_fails) checker live input_ab
                        (world_of repo_with_gitignore))))
  = Some (GitResetHard "/repo")
  ∧ (∀ w0, is_Some (reset_fails w0 (GitResetHard "/repo")))
  ∧ snd (fst (Check (E := plainEnv reset_fails) checker live input_ab
                (world_of repo_with_gitignore))) = None
  ∧ length (Issues (fst (fst (Check (E := plainEnv reset_fails) checker live input_ab
                                (world_of repo_with_gitignore))))) = 1
  ∧ worktree (repo (snd (Check (E := plainEnv reset_fails) checker live input_ab
                           (world_of repo_with_gitignore)))) !! gitignore
    = Some ("build" +:+ nl +:+ "a.txt" +:+ nl +:+ "b.txt" +:+ nl).
Proof.
  split; [by vm_compute|]. split; [intros w0; simpl; eauto|].
  split; [by vm_compute|]. split; by vm_compute.
Qed.

(** With an error in flight the same failure is kept: both errors come back
    in one multi-error and the output is empty. *)
Lemma Check_combines_two_failures :
  fst (Check (E := plainEnv ls_files_and_reset_fail) checker live input_ab
         (world_of repo_with_gitignore))
  = (api.emptyOutput,
     Some (multiError
             [ withMessage (errorString "exit status 128") "fatal: not a git repository";
               withMessage (errorString "exit status 128")
                 "fatal: unable to write new index file" ])).
Proof. by vm_compute. Qed.

(** C2. A clean repository without ignore-rules file, two ownership
    entries, nothing fails: when [Check] returns, the working tree has an
    ignore-rules file, the one the check created, which the hard reset did
    not remove since it is not tracked; the status of the tree is no longer
    empty. *)
Theorem Check_leaves_created_gitignore :
  git_status_porcelain (E := plainEnv no_failure) repo_without_gitignore = ""
  ∧ worktree repo_without_gitignore !! gitignore = None
  ∧ snd (fst (Check (E := plainEnv no_failure) checker live input_ab
                (world_of repo_without_gitignore))) = None
  ∧ worktree (repo (snd (Check (E := plainEnv no_failure) checker live input_ab
                           (world_of repo_without_gitignore)))) !! gitignore
    = Some (nl +:+ "a.txt" +:+ nl +:+ "b.txt" +:+ nl)
  ∧ index (repo (snd (Check (E := plainEnv no_failure) checker live input_ab
                        (world_of repo_without_gitignore))))
    = index repo_without_gitignore
  ∧ git_status_porcelain (E := plainEnv no_failure)
      (repo (snd (Check (E := plainEnv no_failure) checker live input_ab
                    (world_of repo_without_gitignore))))
    = "?? .gitignore" +:+ nl.
Proof.
  split; [by vm_compute|]. split; [by vm_compute|]. split; [by vm_compute|].
  split; [by vm_compute|]. split; by vm_compute.
Qed.


(** C8, as the claim has it, fails: a token cancelled while the status query
    runs is cancelled before each of the five operations that follow, yet
    [Check] starts them all and returns a nil error. *)
Lemma Check_ignores_cancellation_after_entry :
  (∀ n : nat, (1 ≤ n)%nat → cancelled_during_first_operation n = Some Canceled)
  ∧ history (snd (Check (E := plainEnv no_failure) checker
                    cancelled_during_first_operation input_ab
                    (world_of repo_with_gitignore)))
    = [ GitStatusPorcelain "/repo";
        OpenFileAppendCreate "/repo/.gitignore";
        FileWriteString "/repo/.gitignore" (nl +:+ "a.txt" +:+ nl +:+ "b.txt" +:+ nl);
        GitLsFilesIgnoredRmCached "/repo";
        GitLsFiles "/repo" [];
        GitResetHard "/repo" ]
  ∧ snd (fst (Check (E := plainEnv no_failure) checker
                cancelled_during_first_operation input_ab
                (world_of repo_with_gitignore))) = None.
Proof.
  split; [intros [|n] Hn; [lia | done]|]. split; by vm_compute.
Qed.

Lemma Check_cancelled_at_entry_witness :
  Check (E := plainEnv no_failure) checker cancelled input_ab (world_of repo_with_gitignore)
  = ((api.emptyOutput, Some Canceled), world_of repo_with_gitignore).
Proof.
  apply (Check_cancelled_at_entry (E := plainEnv no_failure)). reflexivity.
Defined.

Lemma Check_empty_entries_witness :
  Check (E := plainEnv no_failure) checker live
    {| RepoDir := "/repo"; CodeownersEntries := [] |} (world_of dirty_repo)
  = (({| Issues := [ {| Message := emptyMessage |} ] |}, None), world_of dirty_repo).
Proof.
  apply (Check_empty_entries (E := plainEnv no_failure)); reflexivity.
Defined.

Lemma Check_dirty_tree_witness :
  Check (E := plainEnv no_failure) checker live input_ab (world_of dirty_repo)
  = (({| Issues := [ {| Message := dirtyMessage |} ] |}, None),
     started (GitStatusPorcelain "/repo") (world_of dirty_repo))
  ∧ "?? d.txt" +:+ nl = git_status_porcelain (E := plainEnv no_failure) dirty_repo
  ∧ repo (started (GitStatusPorcelain "/repo") (world_of dirty_repo)) = dirty_repo
  ∧ history (started (GitStatusPorcelain "/repo") (world_of dirty_repo))
    = [] ++ trust_operations checker input_ab ++ [GitStatusPorcelain "/repo"].
Proof.
  apply (Check_dirty_tree (E := plainEnv no_failure) checker live input_ab
           (world_of dirty_repo) (world_of dirty_repo)).
  - reflexivity.
  - discriminate.
  - reflexivity.
  - by vm_compute.
  - discriminate.
Defined.

Lemma Check_error_without_issues_witness :
  Issues (fst (fst (Check (E := plainEnv ls_files_fails) checker live input_ab
                      (world_of repo_with_gitignore)))) = [].
Proof.
  apply (Check_error_without_issues (E := plainEnv ls_files_fails) checker live input_ab
           (world_of repo_with_gitignore)
           (multiError [ withMessage (errorString "exit status 128")
                           "fatal: not a git repository" ])).
  by vm_compute.
Defined.

Lemma AppendToGitignoreFile_appends_witness :
  worktree (repo (snd (AppendToGitignoreFile (E := plainEnv no_failure) checker "/repo"
                         ["a.txt"; "b.txt"] (world_of repo_with_gitignore)))) !! gitignore
  = Some ("build" +:+ nl +:+ "a.txt" +:+ nl +:+ "b.txt" +:+ nl).
Proof.
  refine (proj1 (AppendToGitignoreFile_appends (E := plainEnv no_failure) checker "/repo"
                   ["a.txt"; "b.txt"] (world_of repo_with_gitignore) _ "build" _ _)).
  - by vm_compute.
  - by vm_compute.
Defined.

(** C7. A repository with the committed files -n, a.txt, b.txt and c.txt
    and an ignore-rules file that lists -n and a.txt: the pipeline lists -n
    and a.txt and hands them to git rm --cached with no -- before them; git
    takes -n for its dry-run option, the step returns nil, and nothing has
    left the index, although a.txt is tracked and matched by the ignore
    rules. *)
Theorem GitRemoveIgnoredFiles_takes_file_name_for_option :
  listed_for_removal (E := plainEnv no_failure) (repo_with_file_named "-n") = ["-n"; "a.txt"]
  ∧ fst (GitRemoveIgnoredFiles (E := plainEnv no_failure) checker "/repo"
           (world_of (repo_with_file_named "-n"))) = None
  ∧ index (repo (snd (GitRemoveIgnoredFiles (E := plainEnv no_failure) checker "/repo"
                        (world_of (repo_with_file_named "-n")))))
    = index (repo_with_file_named "-n")
  ∧ ignored (E := plainEnv no_failure) (repo_with_file_named "-n") "a.txt" = true
  ∧ index (repo (snd (GitRemoveIgnoredFiles (E := plainEnv no_failure) checker "/repo"
                        (world_of (repo_with_file_named "-n"))))) !! "a.txt"
    = Some "alpha".
Proof.
  split; [by vm_compute|]. split; [by vm_compute|]. split; [by vm_compute|].
  split; by vm_compute.
Qed.

(** With a file named --no-cached in place of -n, git rm takes a.txt out of
    the index and deletes it on disk as well. *)
Example GitRemoveIgnoredFiles_deletes_file_on_disk :
  worktree (repo_with_file_named "--no-cached") !! "a.txt" = Some "alpha"
  ∧ fst (GitRemoveIgnoredFiles (E := plainEnv no_failure) checker "/repo"
           (world_of (repo_with_file_named "--no-cached"))) = None
  ∧ worktree (repo (snd (GitRemoveIgnoredFiles (E := plainEnv no_failure) checker "/repo"
                           (world_of (repo_with_file_named "--no-cached"))))) !! "a.txt"
    = None.
Proof. split; [by vm_compute|]. split; by vm_compute. Qed.

(** Where git rm reads the listed paths literally, the pruning is exact. *)
Lemma GitRemoveIgnoredFiles_prunes_listed_witness :
  (∀ p, index (repo (snd (GitRemoveIgnoredFiles (E := plainEnv no_failure) checker "/repo"
                            (world_of repo_after_append)))) !! p
        = if ignored (E := plainEnv no_failure) repo_after_append p then None
          else index repo_after_append !! p)
  ∧ worktree (repo (snd (GitRemoveIgnoredFiles (E := plainEnv no_failure) checker "/repo"
                           (world_of repo_after_append))))
    = worktree repo_after_append
  ∧ head (repo (snd (GitRemoveIgnoredFiles (E := plainEnv no_failure) checker "/repo"
                       (world_of repo_after_append))))
    = head repo_after_append.
Proof.
  apply (GitRemoveIgnoredFiles_prunes_listed (E := plainEnv no_failure) checker "/repo"
           (world_of repo_after_append)).
  - apply all_tracked. vm_compute. repeat constructor; discriminate.
  - split; [apply Forall_forall | apply all_tracked];
      apply (bool_decide_unpack _); vm_compute; exact I.
  - by vm_compute.
Defined.

(** On that repository the pruning takes a.txt and b.txt out of the index
    and keeps c.txt and the ignore-rules file. *)
Example GitRemoveIgnoredFiles_example :
  tracked_paths (repo (snd (GitRemoveIgnoredFiles (E := plainEnv no_failure) checker
                              "/repo" (world_of repo_after_append))))
  = [ gitignore; "c.txt" ].
Proof. by vm_compute. Qed.

(** Section 8, property 4: tracked files a.txt, b.txt and c.txt, entries for
    a.txt and b.txt, an empty skip list: one file is reported, c.txt. *)
Example Check_exclusion_correctness :
  fst (Check (E := plainEnv no_failure) checker live input_ab
         (world_of repo_without_gitignore))
  = ({| Issues :=
          [ {| Message := "Found 1 not owned files (skipped patterns: " +:+ quoted ""
                            +:+ "):" +:+ nl +:+ "            * c.txt" |} ] |},
     None).
Proof. by vm_compute. Qed.

(** Section 8, property 5: the same with a.txt in the skip list: a.txt and
    c.txt are reported. *)
Example Check_skip_list_effect :
  fst (Check (E := plainEnv no_failure) checker_skipping_a live input_ab
         (world_of repo_without_gitignore))
  = ({| Issues :=
          [ {| Message := "Found 2 not owned files (skipped patterns: " +:+ quoted "a.txt"
                            +:+ "):" +:+ nl +:+ "            * a.txt" +:+ nl
                            +:+ "            * c.txt" |} ] |},
     None).
Proof. by vm_compute. Qed.

(** * Further properties of the code *)

(** ** Building the checker and excluding patterns *)

(** X1. [NewNotOwnedFile] turns the configured list of skip patterns into a
    set with the same members (order and repetitions are gone) and copies the
    subdirectories and the trust flag. *)
Theorem NewNotOwnedFile_fields (cfg : NotOwnedFileConfig) :
  (∀ p, p ∈ skipPatterns (NewNotOwnedFile cfg) ↔ p ∈ SkipPatterns cfg)
  ∧ subDirectories (NewNotOwnedFile cfg) = Subdirectories cfg
  ∧ trustWorkspace (NewNotOwnedFile cfg) = TrustWorkspace cfg.
Proof.
  split; [|done]. intros p. apply NewNotOwnedFile_skipPatterns.
Qed.

Lemma elem_of_ComputeExcludedPatterns (entries : list Entry) (skip : gset string) (p : string) :
  p ∈ ComputeExcludedPatterns entries skip
  ↔ (∃ entry, entry ∈ entries ∧ Pattern entry = p) ∧ p ∉ skip.
Proof.
  unfold ComputeExcludedPatterns.
  rewrite list_elem_of_In, filter_In, <- list_elem_of_In, bool_decide_eq_true.
  change (map Pattern entries) with (Pattern <$> entries).
  rewrite list_elem_of_fmap. split.
  - intros [(entry & -> & Hin) Hp]. eauto.
  - intros [(entry & Hin & <-) Hp]. eauto.
Qed.

(** X2. A checker built from a configuration excludes a pattern exactly
    when some ownership entry carries it and the configuration does not list
    it as a skip pattern. *)
Theorem patternsToBeIgnored_elem_of (cfg : NotOwnedFileConfig) (entries : list Entry)
    (p : string) :
  p ∈ patternsToBeIgnored (NewNotOwnedFile cfg) entries
  ↔ (∃ entry, entry ∈ entries ∧ Pattern entry = p) ∧ p ∉ SkipPatterns cfg.
Proof.
  unfold patternsToBeIgnored. rewrite patternsToBeIgnored_loop_filter, app_nil_l.
  rewrite elem_of_ComputeExcludedPatterns.
  by rewrite NewNotOwnedFile_skipPatterns.
Qed.

(** X3. Pattern exclusion works entry by entry: the patterns of two
    sequences of entries put end to end are the patterns of the first
    followed by the patterns of the second. *)
Theorem patternsToBeIgnored_app (c : NotOwnedFile) (entries1 entries2 : list Entry) :
  patternsToBeIgnored c (entries1 ++ entries2)
  = patternsToBeIgnored c entries1 ++ patternsToBeIgnored c entries2.
Proof.
  unfold patternsToBeIgnored, patternsToBeIgnored_loop at 1.
  rewrite fold_left_app.
  change (fold_left _ entries1 []) with (patternsToBeIgnored_loop c [] entries1).
  change (fold_left ?f entries2 ?acc) with (patternsToBeIgnored_loop c acc entries2).
  rewrite (patternsToBeIgnored_loop_filter c entries2 (patternsToBeIgnored_loop c [] entries1)).
  by rewrite (patternsToBeIgnored_loop_filter c entries2 []).
Qed.

(** X4. With an empty skip set nothing is left out: the excluded patterns
    are the patterns of the entries, one for one. *)
Theorem patternsToBeIgnored_without_skip_patterns (c : NotOwnedFile) (entries : list Entry) :
  skipPatterns c = ∅ →
  patternsToBeIgnored c entries = map Pattern entries.
Proof.
  intros Hskip. unfold patternsToBeIgnored. rewrite patternsToBeIgnored_loop_filter.
  simpl. unfold ComputeExcludedPatterns. rewrite Hskip.
  induction (map Pattern entries) as [|q l IH]; simpl; [done|].
  rewrite bool_decide_eq_true_2 by set_solver. by rewrite IH.
Qed.

Lemma patternsToBeIgnored_without_skip_patterns_witness :
  patternsToBeIgnored checker entries_ab = map Pattern entries_ab.
Proof.
  apply (patternsToBeIgnored_without_skip_patterns checker entries_ab). reflexivity.
Defined.

(** ** The root command *)

(** X5. [Run] returns to its caller, without calling [os.Exit], exactly
    when the four preparation steps gave no error, the context carries no
    error after the run and no check failed at the configured level. *)
Theorem Run_returns_iff (o : RunOutcome) :
  snd (Run o) = Returns
  ↔ envconfig_Init o = None ∧ load_Checks o = None
    ∧ codeowners_NewFromPath o = None ∧ filepath_Abs o = None
    ∧ cmd_Context_Err o = None ∧ ShouldExitWithCheckFailure o = false.
Proof.
  unfold Run, exitOnError, Run_after_runner.
  destruct (envconfig_Init o), (load_Checks o), (codeowners_NewFromPath o),
    (filepath_Abs o); simpl; try (split; [discriminate | intros (?&?&?&?&?&?); discriminate]).
  destruct (decide (cmd_Context_Err o ≠ None)) as [Hc|Hc]; simpl.
  - split; [discriminate | intros (?&?&?&?&?&?); done].
  - apply dec_stable in Hc.
    destruct (ShouldExitWithCheckFailure o); simpl;
      (split; [try discriminate | intros (?&?&?&?&?&?); try discriminate]); done.
Qed.

(** X6. The process exits with code 1 exactly when one of the four
    preparation steps gave an error, whatever the context and the runner
    would have said; nothing is logged as an interruption then. *)
Theorem Run_exit_1_iff (o : RunOutcome) :
  (snd (Run o) = Exit 1
   ↔ envconfig_Init o ≠ None ∨ load_Checks o ≠ None
     ∨ codeowners_NewFromPath o ≠ None ∨ filepath_Abs o ≠ None)
  ∧ (snd (Run o) = Exit 1 → fst (Run o) = []).
Proof.
  unfold Run, exitOnError, Run_after_runner.
  destruct (envconfig_Init o), (load_Checks o), (codeowners_NewFromPath o),
    (filepath_Abs o); simpl; try (split; [split; [intros _; eauto | done] | done]).
  destruct (decide (cmd_Context_Err o ≠ None));
    [|destruct (ShouldExitWithCheckFailure o)]; simpl;
    (split; [split; [discriminate | intros [?|[?|[?|?]]]; done] | discriminate]).
Qed.

(** X7. The interruption is logged exactly when the process exits with
    code 2, and it is the only line [Run] itself logs as an error. *)
Theorem Run_logs_interruption_iff (o : RunOutcome) :
  (fst (Run o) = ["Application was interrupted by operating system"] ↔ snd (Run o) = Exit 2)
  ∧ (snd (Run o) ≠ Exit 2 → fst (Run o) = []).
Proof.
  unfold Run, exitOnError, Run_after_runner.
  destruct (envconfig_Init o), (load_Checks o), (codeowners_NewFromPath o),
    (filepath_Abs o); simpl; try (split; [split; discriminate | done]).
  destruct (decide (cmd_Context_Err o ≠ None));
    [|destruct (ShouldExitWithCheckFailure o)]; simpl;
    (split; [split; try discriminate; done | try done]).
Qed.

(** ** The check, path by path *)

Section CheckBehaviour.
Context {E : Env}.
Implicit Types (c : NotOwnedFile) (ctx : Ctx) (inp : Input) (w : World).

Lemma passed_status_check_run c ctx inp w w2 :
  passed_status_check c ctx inp w w2 →
  Check c ctx inp w
  = (results <- Check_steps c inp (patternsToBeIgnored c (CodeownersEntries inp))
                  api.newOutputBuilder;;
     Check_deferred c inp results) w2.
Proof.
  intros (Hlive & Hne & w1 & Htrust & Hstatus). by eapply Check_clean_tree.
Qed.

(** X8. When the registration of the repository as a safe directory fails,
    [Check] returns at once with that error, wrapped with the diagnostic
    output of git, and an empty output; git config is the only operation
    started, and the repository and the list of safe directories are as
    before. *)
Theorem Check_trust_failure c ctx inp w (f : Failure) :
  live_at_entry ctx w →
  CodeownersEntries inp ≠ [] →
  trustWorkspace c = true →
  fails w (GitConfigAddSafeDirectory (RepoDir inp)) = Some f →
  Check c ctx inp w
  = ((api.emptyOutput, Some (withMessage (cause f) (stderr f))),
     started (GitConfigAddSafeDirectory (RepoDir inp)) w).
Proof.
  intros Hlive Hne Htrust Hf. rewrite Check_entry_live by done.
  destruct (decide (length (CodeownersEntries inp) = 0)) as [H0|_].
  { by apply length_zero_iff_nil in H0. }
  unfold trustWorkspaceIfNeeded, bind, ret, DividedOutput.
  rewrite Htrust. simpl. by rewrite Hf.
Qed.

(** X9. When the status query fails, [Check] returns that error, wrapped
    with the diagnostic output of git, and an empty output; nothing is
    started after the query: no write, no pruning and no reset. *)
Theorem Check_status_failure c ctx inp w w1 (f : Failure) :
  live_at_entry ctx w →
  CodeownersEntries inp ≠ [] →
  trustWorkspaceIfNeeded c (RepoDir inp) w = (None, w1) →
  fails w1 (GitStatusPorcelain (RepoDir inp)) = Some f →
  Check c ctx inp w
  = ((api.emptyOutput, Some (withMessage (cause f) (stderr f))),
     started (GitStatusPorcelain (RepoDir inp)) w1)
  ∧ repo w1 = repo w.
Proof.
  intros Hlive Hne Htrust Hf. split.
  - rewrite Check_entry_live by done.
    destruct (decide (length (CodeownersEntries inp) = 0)) as [H0|_].
    { by apply length_zero_iff_nil in H0. }
    unfold bind at 1. rewrite Htrust.
    unfold GitCheckStatus, bind, ret, DividedOutput. by rewrite Hf.
  - by apply trustWorkspaceIfNeeded_ok in Htrust as [? _].
Qed.

(** The list of safe directories is touched by the trust step only. *)
Lemma GitCheckStatus_safe_directory c (dir : string) w :
  safe_directory (snd (GitCheckStatus c dir w)) = safe_directory w.
Proof. unfold GitCheckStatus. by run_script. Qed.

Lemma Check_steps_safe_directory c inp (patterns : list string) (bldr : api.OutputBuilder) w :
  safe_directory (snd (Check_steps c inp patterns bldr w)) = safe_directory w.
Proof.
  unfold Check_steps, AppendToGitignoreFile, OpenFile, WriteString, bind, ret.
  destruct (fails w _); simpl; [done|].
  destruct (fails _ _); simpl; [done|].
  unfold GitRemoveIgnoredFiles, bind, ret, DividedOutput.
  destruct (fails _ _); simpl; [done|].
  unfold GitListFiles, bind, ret, DividedOutput.
  by destruct (fails _ _).
Qed.

Lemma Check_deferred_safe_directory c inp (results : Output * option error) w :
  safe_directory (snd (Check_deferred c inp results w)) = safe_directory w.
Proof.
  destruct results as [output err]. unfold Check_deferred, GitResetCurrentBranch.
  run_script; simpl; by destruct err.
Qed.

(** X10. Once git config has registered the repository directory as safe,
    the registration stays: whichever way the run goes on (dirty tree,
    error, issue or success, reset included), the directory is the last
    entry of the list of safe directories when [Check] returns. *)
Theorem Check_trust_registration_stays c ctx inp w :
  live_at_entry ctx w →
  CodeownersEntries inp ≠ [] →
  trustWorkspace c = true →
  fails w (GitConfigAddSafeDirectory (RepoDir inp)) = None →
  safe_directory (snd (Check c ctx inp w)) = safe_directory w ++ [RepoDir inp].
Proof.
  intros Hlive Hne Htrust Hf. rewrite Check_entry_live by done.
  destruct (decide (length (CodeownersEntries inp) = 0)) as [H0|_].
  { by apply length_zero_iff_nil in H0. }
  unfold bind at 1.
  destruct (trustWorkspaceIfNeeded c (RepoDir inp) w) as [err w1] eqn:Ht.
  assert (err = None ∧ safe_directory w1 = safe_directory w ++ [RepoDir inp]) as [-> Hs].
  { revert Ht. unfold trustWorkspaceIfNeeded, bind, ret, DividedOutput.
    rewrite Htrust. simpl. rewrite Hf. intros H; by simplify_eq. }
  unfold bind at 1.
  pose proof (GitCheckStatus_safe_directory c (RepoDir inp) w1) as H2.
  destruct (GitCheckStatus c (RepoDir inp) w1) as [[statusOut [e2|]] w2];
    simpl in H2; [simpl; congruence|].
  destruct (decide (String.length statusOut ≠ 0)); [simpl; congruence|].
  unfold bind.
  pose proof (Check_steps_safe_directory c inp
                (patternsToBeIgnored c (CodeownersEntries inp)) api.newOutputBuilder w2) as H3.
  destruct (Check_steps c inp _ _ w2) as [results w3]. simpl in H3.
  rewrite Check_deferred_safe_directory. congruence.
Qed.

(** X11. After a passed status check the hard reset is the last operation
    [Check] starts before it returns, on every path. *)
Theorem Check_reset_is_last_operation c ctx inp w w2 :
  passed_status_check c ctx inp w w2 →
  last (history (snd (Check c ctx inp w))) = Some (GitResetHard (RepoDir inp)).
Proof.
  intros (Hlive & Hne & w1 & Htrust & Hstatus).
  by eapply Check_resets_before_returning.
Qed.

(** X12. When the steps that follow a passed status check end without
    error, [Check] returns their output and a nil error whatever the hard
    reset did: a failure of the reset is not reported then. *)
Theorem Check_success_whatever_the_reset c ctx inp w w2 (output : Output) w3 :
  passed_status_check c ctx inp w w2 →
  Check_steps c inp (patternsToBeIgnored c (CodeownersEntries inp)) api.newOutputBuilder w2
  = ((output, None), w3) →
  fst (Check c ctx inp w) = (output, None).
Proof.
  intros Hpassed Hsteps. rewrite (passed_status_check_run _ _ _ _ _ Hpassed).
  unfold bind. rewrite Hsteps. apply Check_deferred_without_error.
Qed.

(** X13. When one of those steps ends with an error and the hard reset
    fails too, [Check] returns both in one multi-error, the error of the
    step first and the error of the reset, wrapped with the diagnostic
    output of git, last; the output is empty. *)
Theorem Check_returns_both_errors c ctx inp w w2 (output : Output) (e : error) w3
    (f : Failure) :
  passed_status_check c ctx inp w w2 →
  Check_steps c inp (patternsToBeIgnored c (CodeownersEntries inp)) api.newOutputBuilder w2
  = ((output, Some e), w3) →
  fails w3 (GitResetHard (RepoDir inp)) = Some f →
  fst (Check c ctx inp w)
  = (api.emptyOutput,
     Some (multiError (multierror.flatten (Some e) ++ [withMessage (cause f) (stderr f)]))).
Proof.
  intros Hpassed Hsteps Hf. rewrite (passed_status_check_run _ _ _ _ _ Hpassed).
  unfold bind. rewrite Hsteps. by apply Check_deferred_combines.
Qed.

(** X14. When one of those steps ends with an error (not itself a
    multi-error) and the hard reset succeeds, the error comes back inside a
    multi-error of one element, not as it was. *)
Theorem Check_wraps_error_of_step c ctx inp w w2 (output : Output) (e : error) w3 :
  passed_status_check c ctx inp w w2 →
  Check_steps c inp (patternsToBeIgnored c (CodeownersEntries inp)) api.newOutputBuilder w2
  = ((output, Some e), w3) →
  fails w3 (GitResetHard (RepoDir inp)) = None →
  (∀ es, e ≠ multiError es) →
  fst (Check c ctx inp w) = (api.emptyOutput, Some (multiError [e])).
Proof.
  intros Hpassed Hsteps Hf Hplain. rewrite (passed_status_check_run _ _ _ _ _ Hpassed).
  unfold bind. rewrite Hsteps. rewrite Check_deferred_keeps_error by done.
  destruct e as [s|e' msg|es]; try done. by destruct (Hplain es).
Qed.

Lemma Check_steps_issues c inp (patterns : list string) w (output : Output)
    (err : option error) w' :
  Check_steps c inp patterns api.newOutputBuilder w = ((output, err), w') →
  (length (Issues output) ≤ 1)%nat.
Proof.
  unfold Check_steps, bind, ret.
  destruct (AppendToGitignoreFile c (RepoDir inp) patterns w) as [[e|] w1];
    [intros H; simplify_eq; simpl; lia|].
  destruct (GitRemoveIgnoredFiles c (RepoDir inp) w1) as [[e|] w2];
    [intros H; simplify_eq; simpl; lia|].
  destruct (GitListFiles c (RepoDir inp) w2) as [[out [e|]] w3];
    [intros H; simplify_eq; simpl; lia|].
  intros H; simplify_eq. destruct (decide (TrimSpace out ≠ "")); simpl; lia.
Qed.

(** X15. [Check] never reports more than one issue: however many files
    have no owner, they are listed in one message. *)
Theorem Check_at_most_one_issue c ctx inp w :
  (length (Issues (fst (fst (Check c ctx inp w)))) ≤ 1)%nat.
Proof.
  destruct (ctx (length (history w))) as [e0|] eqn:Hctx.
  { rewrite (Check_entry_cancelled c ctx inp w e0) by done. simpl. lia. }
  rewrite Check_entry_live by done. unfold bind, ret.
  destruct (decide (length (CodeownersEntries inp) = 0)); [simpl; lia|].
  destruct (trustWorkspaceIfNeeded c (RepoDir inp) w) as [[e1|] w1]; [simpl; lia|].
  destruct (GitCheckStatus c (RepoDir inp) w1) as [[statusOut [e2|]] w2]; [simpl; lia|].
  destruct (decide (String.length statusOut ≠ 0)); [simpl; lia|].
  destruct (Check_steps c inp _ _ w2) as [[output err] w3] eqn:Hsteps.
  apply Check_steps_issues in Hsteps.
  unfold Check_deferred, GitResetCurrentBranch, bind, ret, DividedOutput.
  destruct (fails w3 _); destruct err; simpl; lia.
Qed.

(** *** The order of the operations *)

Lemma trustWorkspaceIfNeeded_history c (dir : string) w :
  history (snd (trustWorkspaceIfNeeded c dir w))
  = history w ++ (if trustWorkspace c then [GitConfigAddSafeDirectory dir] else []).
Proof.
  unfold trustWorkspaceIfNeeded.
  destruct (trustWorkspace c); simpl; [by run_script | by rewrite app_nil_r].
Qed.

Lemma GitCheckStatus_history c (dir : string) w :
  history (snd (GitCheckStatus c dir w)) = history w ++ [GitStatusPorcelain dir].
Proof. unfold GitCheckStatus. by run_script. Qed.

Lemma Check_steps_history c inp w :
  ∃ k, (1 ≤ k)%nat
       ∧ history (snd (Check_steps c inp (patternsToBeIgnored c (CodeownersEntries inp))
                         api.newOutputBuilder w))
         = history w ++ take k (mutation_operations c inp).
Proof.
  unfold Check_steps, AppendToGitignoreFile, OpenFile, WriteString, bind, ret.
  rewrite builder_content. fold (appended_block (patternsToBeIgnored c (CodeownersEntries inp))).
  destruct (fails w _); simpl; [by exists 1%nat|].
  destruct (fails _ _); simpl.
  { exists 2%nat. split; [lia|]. by rewrite <- app_assoc. }
  unfold GitRemoveIgnoredFiles, bind, ret, DividedOutput.
  destruct (fails _ _); simpl.
  { exists 3%nat. split; [lia|]. by rewrite <- !app_assoc. }
  unfold GitListFiles, bind, ret, DividedOutput.
  exists 4%nat. split; [lia|].
  destruct (fails _ _); simpl; by rewrite <- !app_assoc.
Qed.

(** X16. The operations of a run come in one order. Either the run stops
    at or before the status query, having started a prefix of: the trust
    registration (if configured), the status query. Or it goes on with the
    opening of the ignore-rules file and then, as long as nothing fails, the
    write, the pruning pipeline and the listing, and ends with the hard
    reset. So nothing is written before the status query, the reset is
    started exactly when the ignore-rules file was opened, and nothing
    follows the reset. *)
Theorem Check_operation_order c ctx inp w :
  ∃ ops, history (snd (Check c ctx inp w)) = history w ++ ops
         ∧ (ops `prefix_of` preamble_operations c inp
            ∨ ∃ k, (1 ≤ k)%nat
                   ∧ ops = preamble_operations c inp
                           ++ take k (mutation_operations c inp)
                           ++ [GitResetHard (RepoDir inp)]).
Proof.
  destruct (ctx (length (history w))) as [e0|] eqn:Hctx.
  { rewrite (Check_entry_cancelled c ctx inp w e0) by done. exists []. simpl.
    rewrite app_nil_r. split; [done|]. left. apply prefix_nil. }
  rewrite Check_entry_live by done.
  destruct (decide (length (CodeownersEntries inp) = 0)).
  { exists []. simpl. rewrite app_nil_r. split; [done|]. left. apply prefix_nil. }
  unfold bind at 1.
  pose proof (trustWorkspaceIfNeeded_history c (RepoDir inp) w) as H1.
  destruct (trustWorkspaceIfNeeded c (RepoDir inp) w) as [[e1|] w1]; simpl in H1.
  { exists (trust_operations c inp). split; [done|]. left. by apply prefix_app_r. }
  unfold bind at 1.
  pose proof (GitCheckStatus_history c (RepoDir inp) w1) as H2.
  destruct (GitCheckStatus c (RepoDir inp) w1) as [[statusOut [e2|]] w2]; simpl in H2.
  { exists (preamble_operations c inp). simpl. rewrite H2, H1.
    unfold preamble_operations, trust_operations. rewrite <- app_assoc. split; [done|]. by left. }
  destruct (decide (String.length statusOut ≠ 0)).
  { exists (preamble_operations c inp). simpl. rewrite H2, H1.
    unfold preamble_operations, trust_operations. rewrite <- app_assoc. split; [done|]. by left. }
  unfold bind.
  destruct (Check_steps_history c inp w2) as (k & Hk & H3).
  destruct (Check_steps c inp _ _ w2) as [results w3]. simpl in H3.
  rewrite Check_deferred_history, H3, H2, H1.
  exists (preamble_operations c inp ++ take k (mutation_operations c inp)
          ++ [GitResetHard (RepoDir inp)]).
  split; [|right; eauto].
  unfold preamble_operations, trust_operations. by rewrite <- !app_assoc.
Qed.

(** *** The ignore-rules file *)

(** X17. When there is no ignore-rules file, a call of
    [AppendToGitignoreFile] that returns nil has created it: its content is
    an empty first line followed by the patterns, one per line; no other
    file, and neither the index nor the committed tree, has changed. *)
Theorem AppendToGitignoreFile_creates_missing_file c (dir : string)
    (patterns : list string) w w' :
  worktree (repo w) !! gitignore = None →
  AppendToGitignoreFile c dir patterns w = (None, w') →
  worktree (repo w') !! gitignore
  = Some (nl +:+ concat_strings (map (fun p => p +:+ nl) patterns))
  ∧ (∀ p, p ≠ gitignore → worktree (repo w') !! p = worktree (repo w) !! p)
  ∧ index (repo w') = index (repo w)
  ∧ head (repo w') = head (repo w).
Proof.
  intros Hnone Hrun. apply AppendToGitignoreFile_ok in Hrun.
  rewrite Hnone in Hrun. simpl in Hrun. by rewrite append_empty_l in Hrun.
Qed.

(** A hard reset of a clean repository changes nothing. *)
Lemma git_reset_hard_clean (r : Repo) :
  clean r → git_reset_hard r = r.
Proof.
  intros (Hhi & Hiw & _).
  unfold git_reset_hard. destruct r as [h i f]; simpl in *. subst i. f_equal.
  apply map_eq. intros p. destruct (h !! p) as [committed|] eqn:Hp.
  - rewrite (Hiw p committed Hp).
    destruct (decide (left_by_reset {| head := h; index := h; worktree := f |} p))
      as [Hleft|Hwritten].
    + rewrite lookup_union_r
        by (apply map_lookup_filter_None_2; right; intros x _ Hn; by apply Hn).
      apply map_lookup_filter_Some_2; [by apply Hiw|]. simpl. by right.
    + apply (lookup_union_Some_l _ _ _ committed). by apply map_lookup_filter_Some_2.
  - rewrite lookup_union_r by (apply map_lookup_filter_None_2; by left).
    destruct (f !! p) as [x|] eqn:Hx.
    + apply map_lookup_filter_Some_2; [done|]. simpl. by left.
    + apply map_lookup_filter_None_2. by left.
Qed.

(** X18. On a clean repository, when the ignore-rules file cannot be
    opened, the steps stop there: nothing is written, pruned or listed. The
    hard reset still runs and, when it succeeds, [Check] returns the error
    of the opening (inside a multi-error) with an empty output and leaves
    the repository exactly as it found it. *)
Theorem Check_open_failure c ctx inp w w2 (f : Failure) :
  clean (repo w) →
  passed_status_check c ctx inp w w2 →
  fails w2 (OpenFileAppendCreate (RepoDir inp +:+ "/" +:+ gitignore)) = Some f →
  (∀ w0, fails w0 (GitResetHard (RepoDir inp)) = None) →
  (∀ es, cause f ≠ multiError es) →
  fst (Check c ctx inp w) = (api.emptyOutput, Some (multiError [cause f]))
  ∧ repo (snd (Check c ctx inp w)) = repo w
  ∧ history (snd (Check c ctx inp w))
    = history w2 ++ [ OpenFileAppendCreate (RepoDir inp +:+ "/" +:+ gitignore);
                      GitResetHard (RepoDir inp) ].
Proof.
  intros Hclean Hpassed Hopen Hreset Hplain.
  rewrite (passed_status_check_run _ _ _ _ _ Hpassed).
  destruct Hpassed as (_ & _ & w1 & Htrust & Hstatus).
  apply trustWorkspaceIfNeeded_ok in Htrust as [Hr1 _].
  apply GitCheckStatus_ok in Hstatus as [-> _].
  unfold bind, Check_steps, AppendToGitignoreFile, OpenFile, bind, ret.
  rewrite Hopen. simpl.
  unfold GitResetCurrentBranch, bind, ret, DividedOutput. rewrite Hreset. simpl.
  rewrite Hr1, git_reset_hard_clean by done. rewrite <- app_assoc.
  repeat split. destruct (cause f) as [s|e' msg|es]; try done. by destruct (Hplain es).
Qed.

End CheckBehaviour.

(** ** The list of files without owner *)

Lemma free_of_append (sep : ascii) (a b : string) :
  free_of sep (a +:+ b) ↔ free_of sep a ∧ free_of sep b.
Proof.
  induction a as [|x a IH]; [rewrite append_empty_l; simpl; tauto|].
  rewrite append_cons. simpl. rewrite IH. tauto.
Qed.

Lemma Split_from_free (sep : ascii) (s : string) :
  free_of sep s → ∀ cur, Split_from cur s sep = [cur +:+ s].
Proof.
  induction s as [|a s IH]; simpl; intros Hs cur.
  - by rewrite append_empty_r.
  - destruct Hs as [Ha Hs]. destruct (Ascii.eqb_spec a sep) as [->|_]; [done|].
    rewrite IH by done. by rewrite append_assoc3.
Qed.

Lemma Split_from_piece (sep : ascii) (s : string) :
  free_of sep s →
  ∀ cur rest, Split_from cur (s +:+ String sep rest) sep
              = (cur +:+ s) :: Split_from "" rest sep.
Proof.
  induction s as [|a s IH]; intros Hs cur rest.
  - rewrite append_empty_l, append_empty_r. simpl. by rewrite Ascii.eqb_refl.
  - destruct Hs as [Ha Hs]. rewrite append_cons. simpl.
    destruct (Ascii.eqb_spec a sep) as [->|_]; [done|].
    rewrite IH by done. by rewrite append_assoc3.
Qed.

(** Splitting what [strings.Join] joined gives the pieces back. *)
Lemma Split_Join (sep : ascii) (l : list string) :
  l ≠ [] →
  (∀ s, s ∈ l → free_of sep s) →
  Split (Join l (String sep "")) sep = l.
Proof.
  unfold Split. induction l as [|e l IH]; [done|]. intros _ Hfree.
  destruct l as [|e' l].
  - simpl. rewrite Split_from_free by (apply Hfree; by left). by rewrite append_empty_l.
  - change (Join (e :: e' :: l) (String sep ""))
      with (e +:+ String sep "" +:+ Join (e' :: l) (String sep "")).
    rewrite append_cons, append_empty_l.
    rewrite Split_from_piece by (apply Hfree; by left).
    rewrite append_empty_l, IH; [done | done |].
    intros s Hs. apply Hfree. by right.
Qed.

(** The pieces [strings.Split] gives do not hold the separator. *)
Lemma Split_from_pieces_free (sep : ascii) (s : string) :
  ∀ cur, free_of sep cur → ∀ x, x ∈ Split_from cur s sep → free_of sep x.
Proof.
  induction s as [|a s IH]; simpl; intros cur Hcur x Hx.
  - apply list_elem_of_singleton in Hx. by subst.
  - destruct (Ascii.eqb_spec a sep) as [->|Hne].
    + apply elem_of_cons in Hx as [->|Hx]; [done|]. by apply (IH "").
    + apply (IH (cur +:+ String a "")); [|done].
      apply free_of_append. by repeat split.
Qed.

(** X19. Formatting the lines of a listing keeps them apart: splitting the
    text [ListFormatFunc] builds from the lines of any text gives those
    lines back, each behind its bullet, in the same order and number. *)
Theorem ListFormatFunc_lines (s : string) :
  Split (ListFormatFunc (Split s "010"%char)) "010"%char
  = map bullet (Split s "010"%char).
Proof.
  unfold ListFormatFunc. fold bullet. apply (Split_Join "010"%char).
  - unfold Split. destruct s as [|a s]; simpl; [done|].
    destruct (Ascii.eqb a "010"); [done|].
    destruct (Split_from _ s _) eqn:Hs; [|done].
    exfalso. clear -Hs. revert Hs. generalize ("" +:+ String a "").
    induction s as [|b s IH]; simpl; intros cur; [done|].
    destruct (Ascii.eqb b "010"); [done | apply IH].
  - intros x Hx. change (map bullet ?l) with (bullet <$> l) in Hx.
    apply list_elem_of_fmap in Hx as (e & -> & He).
    unfold bullet. apply free_of_append. split.
    + simpl. repeat split; discriminate.
    + by apply (Split_from_pieces_free "010"%char s "").
Qed.





Section CheckVerdict.
Context {E : Env}.
Implicit Types (c : NotOwnedFile) (ctx : Ctx) (inp : Input) (w : World).
Hypothesis nothing_fails : ∀ w0 op, fails w0 op = None.





End CheckVerdict.

(** ** The further properties on concrete repositories *)

(** The status check passes on a concrete clean repository. *)
Ltac status_check_passes w1 :=
  split; [reflexivity|]; split; [discriminate|]; exists w1; split; by vm_compute.


(** A concrete repository is clean in an environment without hidden
    entries when its status output is empty. *)
Ltac concrete_clean := apply git_status_porcelain_clean; [done | by vm_compute].


Lemma Check_trust_failure_witness :
  Check (E := plainEnv config_fails) trusting_checker live input_ab
    (world_of repo_with_gitignore)
  = ((api.emptyOutput,
      Some (withMessage (errorString "exit status 255") "error: could not lock config file")),
     started (GitConfigAddSafeDirectory "/repo") (world_of repo_with_gitignore)).
Proof.
  apply (Check_trust_failure (E := plainEnv config_fails) trusting_checker live input_ab
           (world_of repo_with_gitignore)
           {| stderr := "error: could not lock config file";
              cause := errorString "exit status 255" |});
    [reflexivity | discriminate | reflexivity | reflexivity].
Defined.

Lemma Check_status_failure_witness :
  Check (E := plainEnv status_fails) checker live input_ab (world_of repo_with_gitignore)
  = ((api.emptyOutput,
      Some (withMessage (errorString "exit status 128")
              "fatal: detected dubious ownership in repository")),
     started (GitStatusPorcelain "/repo") (world_of repo_with_gitignore))
  ∧ repo (world_of repo_with_gitignore) = repo (world_of repo_with_gitignore).
Proof.
  apply (Check_status_failure (E := plainEnv status_fails) checker live input_ab
           (world_of repo_with_gitignore) (world_of repo_with_gitignore)
           {| stderr := "fatal: detected dubious ownership in repository";
              cause := errorString "exit status 128" |});
    [reflexivity | discriminate | reflexivity | reflexivity].
Defined.

Lemma Check_trust_registration_stays_witness :
  safe_directory (snd (Check (E := plainEnv no_failure) trusting_checker live input_ab
                         (world_of repo_with_gitignore)))
  = [] ++ ["/repo"].
Proof.
  apply (Check_trust_registration_stays (E := plainEnv no_failure) trusting_checker live
           input_ab (world_of repo_with_gitignore));
    [reflexivity | discriminate | reflexivity | reflexivity].
Defined.

Lemma Check_reset_is_last_operation_witness :
  last (history (snd (Check (E := plainEnv ls_files_fails) checker live input_ab
                        (world_of repo_with_gitignore))))
  = Some (GitResetHard "/repo").
Proof.
  apply (Check_reset_is_last_operation (E := plainEnv ls_files_fails) checker live input_ab
           (world_of repo_with_gitignore)
           (started (GitStatusPorcelain "/repo") (world_of repo_with_gitignore))).
  status_check_passes (world_of repo_with_gitignore).
Defined.

Lemma Check_success_whatever_the_reset_witness :
  fst (Check (E := plainEnv reset_fails) checker live input_ab (world_of repo_of_two_files))
  = ({| Issues := [] |}, None).
Proof.
  apply (Check_success_whatever_the_reset (E := plainEnv reset_fails) checker live input_ab
           (world_of repo_of_two_files)
           (started (GitStatusPorcelain "/repo") (world_of repo_of_two_files))
           {| Issues := [] |}
           (snd (Check_steps (E := plainEnv reset_fails) checker input_ab
                   (patternsToBeIgnored checker entries_ab) api.newOutputBuilder
                   (started (GitStatusPorcelain "/repo") (world_of repo_of_two_files))))).
  - status_check_passes (world_of repo_of_two_files).
  - by vm_compute.
Defined.

Lemma Check_returns_both_errors_witness :
  fst (Check (E := plainEnv ls_files_and_reset_fail) checker live input_ab
         (world_of repo_with_gitignore))
  = (api.emptyOutput,
     Some (multiError
             (multierror.flatten
                (Some (withMessage (errorString "exit status 128")
                         "fatal: not a git repository"))
              ++ [ withMessage (errorString "exit status 128")
                     "fatal: unable to write new index file" ]))).
Proof.
  apply (Check_returns_both_errors (E := plainEnv ls_files_and_reset_fail) checker live
           input_ab (world_of repo_with_gitignore)
           (started (GitStatusPorcelain "/repo") (world_of repo_with_gitignore))
           api.emptyOutput
           (withMessage (errorString "exit status 128") "fatal: not a git repository")
           (snd (Check_steps (E := plainEnv ls_files_and_reset_fail) checker input_ab
                   (patternsToBeIgnored checker entries_ab) api.newOutputBuilder
                   (started (GitStatusPorcelain "/repo") (world_of repo_with_gitignore))))
           {| stderr := "fatal: unable to write new index file";
              cause := errorString "exit status 128" |}).
  - status_check_passes (world_of repo_with_gitignore).
  - by vm_compute.
  - reflexivity.
Defined.

Lemma Check_wraps_error_of_step_witness :
  fst (Check (E := plainEnv ls_files_fails) checker live input_ab
         (world_of repo_with_gitignore))
  = (api.emptyOutput,
     Some (multiError [ withMessage (errorString "exit status 128")
                          "fatal: not a git repository" ])).
Proof.
  apply (Check_wraps_error_of_step (E := plainEnv ls_files_fails) checker live input_ab
           (world_of repo_with_gitignore)
           (started (GitStatusPorcelain "/repo") (world_of repo_with_gitignore))
           api.emptyOutput
           (withMessage (errorString "exit status 128") "fatal: not a git repository")
           (snd (Check_steps (E := plainEnv ls_files_fails) checker input_ab
                   (patternsToBeIgnored checker entries_ab) api.newOutputBuilder
                   (started (GitStatusPorcelain "/repo") (world_of repo_with_gitignore))))).
  - status_check_passes (world_of repo_with_gitignore).
  - by vm_compute.
  - reflexivity.
  - discriminate.
Defined.

Lemma AppendToGitignoreFile_creates_missing_file_witness :
  worktree (repo (snd (AppendToGitignoreFile (E := plainEnv no_failure) checker "/repo"
                         ["a.txt"; "b.txt"] (world_of repo_without_gitignore)))) !! gitignore
  = Some (nl +:+ "a.txt" +:+ nl +:+ "b.txt" +:+ nl).
Proof.
  refine (proj1 (AppendToGitignoreFile_creates_missing_file (E := plainEnv no_failure)
                   checker "/repo" ["a.txt"; "b.txt"] (world_of repo_without_gitignore)
                   _ _ _)).
  - by vm_compute.
  - by vm_compute.
Defined.

Lemma Check_open_failure_witness :
  fst (Check (E := plainEnv open_fails) checker live input_ab (world_of repo_with_gitignore))
  = (api.emptyOutput,
     Some (multiError [ errorString "open /repo/.gitignore: permission denied" ]))
  ∧ repo (snd (Check (E := plainEnv open_fails) checker live input_ab
                 (world_of repo_with_gitignore)))
    = repo (world_of repo_with_gitignore)
  ∧ history (snd (Check (E := plainEnv open_fails) checker live input_ab
                    (world_of repo_with_gitignore)))
    = history (started (GitStatusPorcelain "/repo") (world_of repo_with_gitignore))
      ++ [ OpenFileAppendCreate ("/repo" +:+ "/" +:+ gitignore); GitResetHard "/repo" ].
Proof.
  apply (Check_open_failure (E := plainEnv open_fails) checker live input_ab
           (world_of repo_with_gitignore)
           (started (GitStatusPorcelain "/repo") (world_of repo_with_gitignore))
           {| stderr := "";
              cause := errorString "open /repo/.gitignore: permission denied" |}).
  - concrete_clean.
  - status_check_passes (world_of repo_with_gitignore).
  - reflexivity.
  - reflexivity.
  - discriminate.
Defined.



Lemma Check_reads_token_at_entry_only_witness :
  Check (E := plainEnv no_failure) checker cancelled_during_first_operation input_ab
    (world_of repo_with_gitignore)
  = Check (E := plainEnv no_failure) checker live input_ab (world_of repo_with_gitignore).
Proof.
  apply (Check_reads_token_at_entry_only (E := plainEnv no_failure)). reflexivity.
Defined.

Lemma Check_keeps_created_gitignore_witness :
  worktree (repo (snd (Check (E := plainEnv no_failure) checker live input_ab
                         (world_of repo_without_gitignore)))) !! gitignore
  = Some (appended_block (patternsToBeIgnored checker (CodeownersEntries input_ab))).
Proof.
  apply (Check_keeps_created_gitignore (E := plainEnv no_failure) (fun _ _ => eq_refl)).
  - reflexivity.
  - discriminate.
  - concrete_clean.
  - by vm_compute.
Defined.
